(** * shlex: a shell-style lexer

    A shallow embedding of the Go package [shlex] and the verification of
    its specification.  The package comes in two revisions of one file:
    [src/shlex.go] (constants [RUNE_CHAR], [STATE_START], ...; methods
    [NextToken], [NextWord]) and [src/unnamed/part_000] (constants
    [charRunes], [startState], ...; methods [Next]).  Their [scanStream],
    [Lexer] loop and [Split] loop are the same text up to the renaming of
    constants, so the state machine is embedded once, in a section over the
    classifier, under the names of [part_000]; the modules [ShlexGo] and
    [Part000] hold what is particular to each file. *)

From Stdlib Require Import ZArith Ascii String List Lia.
From stdpp Require Import base option list gmap strings.

(** ** Runes and strings

    A [rune] is Go's [int32] code point.  The tokenizer sees its input only
    through [bufio.Reader.ReadRune], and writes its output only through the
    conversion [string(value)] of a rune slice, so both the input stream and
    the text of a token are modelled as the list of their runes.  [runes]
    gives the runes of an ASCII string literal (one rune per byte), which is
    what every string constant of the package is. *)

Definition rune : Type := Z.

Definition runes (s : string) : list rune :=
  (fun a : ascii => Z.of_N (N_of_ascii a)) <$> list_ascii_of_string s.

(** ** Enumerations *)

(** [TokenType] ([TOKEN_UNKNOWN], [TOKEN_WORD], [TOKEN_SPACE],
    [TOKEN_COMMENT] in [shlex.go]). *)
Inductive TokenType : Set :=
| UnknownToken
| WordToken
| SpaceToken
| CommentToken.

(** [runeTokenClass] ([RuneTokenType] with [RUNETOKEN_UNKNOWN], ... in
    [shlex.go]).  [unknownRuneClass] is the zero value, which a Go map
    returns for a key it does not hold. *)
Inductive runeTokenClass : Set :=
| unknownRuneClass
| charRuneClass
| spaceRuneClass
| escapingQuoteRuneClass
| nonEscapingQuoteRuneClass
| escapeRuneClass
| commentRuneClass
| eofRuneClass.

(** [lexerState] ([STATE_START], [STATE_INWORD], [STATE_ESCAPING],
    [STATE_ESCAPING_QUOTED], [STATE_QUOTED_ESCAPING], [STATE_QUOTED],
    [STATE_COMMENT] in [shlex.go]). *)
Inductive lexerState : Set :=
| startState
| inWordState
| escapingState
| escapingQuotedState
| quotingEscapingState
| quotingState
| commentState.

Global Instance TokenType_eq_dec : EqDecision TokenType.
Proof. solve_decision. Defined.
Global Instance runeTokenClass_eq_dec : EqDecision runeTokenClass.
Proof. solve_decision. Defined.
Global Instance lexerState_eq_dec : EqDecision lexerState.
Proof. solve_decision. Defined.

(** [Token] is a (type, value) pair. *)
Record Token : Type := mkToken { tokenType : TokenType; value : list rune }.

(** [Token.Equal] on two possibly nil pointers. *)
Definition Equal (a b : option Token) : bool :=
  match a, b with
  | Some a, Some b =>
      if decide (tokenType a = tokenType b)
      then bool_decide (value a = value b)
      else false
  | _, _ => false
  end.

(** The errors the package produces: [io.EOF] and the four [fmt.Errorf]
    messages. *)
Inductive error : Type :=
| EOF
| ErrUnknownRune (r : rune)          (* "Uknown rune: %v" *)
| ErrEOFAfterEscape                  (* "EOF found after escape character" *)
| ErrEOFInQuote                      (* "EOF found when expecting closing quote" *)
| ErrUnknownTokenType (t : TokenType). (* "Unknown token type: %v" *)

Global Instance error_eq_dec : EqDecision error.
Proof. solve_decision. Defined.

(** ** The classifier *)

(** [tokenClassifier] is the struct around [typeMap map[rune]runeTokenClass]. *)
Abbreviation tokenClassifier := (gmap rune runeTokenClass).

(** [addRuneClass]: [for _, runeChar := range runes { typeMap[runeChar] = tokenType }]. *)
Definition addRuneClass (typeMap : tokenClassifier) (rs : list rune)
    (tokenType : runeTokenClass) : tokenClassifier :=
  foldl (fun m r => <[r := tokenType]> m) typeMap rs.

(** [ClassifyRune]: the map lookup, with the zero value for a missing key. *)
Definition ClassifyRune (classifier : tokenClassifier) (runeVal : rune) : runeTokenClass :=
  default unknownRuneClass (classifier !! runeVal).

(** ** The tokenizer's state machine *)

(** What one turn of the [SCAN] loop does with the loop's variables:
    go round again, [break SCAN] (after [UnreadRune] when [unread]), or
    return [nil] and an error from inside the loop. *)
Inductive action : Type :=
| Continue (state : lexerState) (tokenType : TokenType) (value : list rune)
| BreakScan (state : lexerState) (tokenType : TokenType) (value : list rune)
    (err : option error) (unread : bool)
| ReturnNil (err : error).

(** The body of the loop after [nextRune] and [nextRuneType] are set: the
    [switch state] with its inner [switch nextRuneType]. *)
Definition scanStep (state : lexerState) (tokenType : TokenType) (value : list rune)
    (nextRune : rune) (nextRuneType : runeTokenClass) : action :=
  match state with
  | startState =>
      match nextRuneType with
      | eofRuneClass => ReturnNil EOF
      | charRuneClass => Continue inWordState WordToken (value ++ [nextRune])
      | spaceRuneClass => Continue state tokenType value
      | escapingQuoteRuneClass => Continue quotingEscapingState WordToken value
      | nonEscapingQuoteRuneClass => Continue quotingState WordToken value
      | escapeRuneClass => Continue escapingState WordToken value
      | commentRuneClass => Continue commentState CommentToken value
      | _ => ReturnNil (ErrUnknownRune nextRune)
      end
  | inWordState =>
      match nextRuneType with
      | eofRuneClass => BreakScan state tokenType value None false
      | charRuneClass | commentRuneClass => Continue state tokenType (value ++ [nextRune])
      | spaceRuneClass => BreakScan state tokenType value None true
      | escapingQuoteRuneClass => Continue quotingEscapingState tokenType value
      | nonEscapingQuoteRuneClass => Continue quotingState tokenType value
      | escapeRuneClass => Continue escapingState tokenType value
      | _ => ReturnNil (ErrUnknownRune nextRune)
      end
  | escapingState =>
      match nextRuneType with
      | eofRuneClass => BreakScan state tokenType value (Some ErrEOFAfterEscape) false
      | charRuneClass | spaceRuneClass | escapingQuoteRuneClass
      | nonEscapingQuoteRuneClass | escapeRuneClass | commentRuneClass =>
          Continue inWordState tokenType (value ++ [nextRune])
      | _ => ReturnNil (ErrUnknownRune nextRune)
      end
  | escapingQuotedState =>
      match nextRuneType with
      | eofRuneClass => BreakScan state tokenType value (Some ErrEOFAfterEscape) false
      | charRuneClass | spaceRuneClass | escapingQuoteRuneClass
      | nonEscapingQuoteRuneClass | escapeRuneClass | commentRuneClass =>
          Continue quotingEscapingState tokenType (value ++ [nextRune])
      | _ => ReturnNil (ErrUnknownRune nextRune)
      end
  | quotingEscapingState =>
      match nextRuneType with
      | eofRuneClass => BreakScan state tokenType value (Some ErrEOFInQuote) false
      | charRuneClass | spaceRuneClass | nonEscapingQuoteRuneClass | commentRuneClass =>
          Continue state tokenType (value ++ [nextRune])
      | escapingQuoteRuneClass => Continue inWordState tokenType value
      | escapeRuneClass => Continue escapingQuotedState tokenType value
      | _ => ReturnNil (ErrUnknownRune nextRune)
      end
  | quotingState =>
      match nextRuneType with
      | eofRuneClass => BreakScan state tokenType value (Some ErrEOFInQuote) false
      | charRuneClass | spaceRuneClass | escapingQuoteRuneClass
      | escapeRuneClass | commentRuneClass =>
          Continue state tokenType (value ++ [nextRune])
      | nonEscapingQuoteRuneClass => Continue inWordState tokenType value
      | _ => ReturnNil (ErrUnknownRune nextRune)
      end
  | commentState =>
      match nextRuneType with
      | eofRuneClass => BreakScan state tokenType value None false
      | charRuneClass | escapingQuoteRuneClass | escapeRuneClass
      | commentRuneClass | nonEscapingQuoteRuneClass =>
          Continue state tokenType (value ++ [nextRune])
      | spaceRuneClass =>
          if decide (nextRune = 10%Z)
          then BreakScan startState tokenType value None false
          else Continue state tokenType (value ++ [nextRune])
      | _ => ReturnNil (ErrUnknownRune nextRune)
      end
  end.

(** What a call returns: Go's pair of a token pointer and an error, either
    of which may be nil, and the input the reader still holds. *)
Definition scanResult : Type := option Token * option error * list rune.

Section Scanner.

Variable classifier : tokenClassifier.

(** The [SCAN] loop.  The reader is the list of runes not yet read:
    [ReadRune] takes the head, and on the empty list reports [io.EOF] with
    rune 0, which the loop turns into [eofRuneClass]; [UnreadRune] after a
    successful read puts that rune back, and after a read that hit the end
    does nothing.  A strings reader has no other fault.  After the loop the
    token is built from [tokenType] and [value] and returned with [err].
    [None] stands for a run that does not return: the loop going round
    again at the end of the input. *)
Fixpoint scanLoop (state : lexerState) (tokenType : TokenType) (value : list rune)
    (input : list rune) : option scanResult :=
  match input with
  | [] =>
      match scanStep state tokenType value 0%Z eofRuneClass with
      | Continue _ _ _ => None
      | BreakScan _ tokenType value err _ =>
          Some (Some (mkToken tokenType value), err, [])
      | ReturnNil err => Some (None, Some err, [])
      end
  | nextRune :: rest =>
      match scanStep state tokenType value nextRune (ClassifyRune classifier nextRune) with
      | Continue state tokenType value => scanLoop state tokenType value rest
      | BreakScan _ tokenType value err unread =>
          Some (Some (mkToken tokenType value), err,
                if unread then nextRune :: rest else rest)
      | ReturnNil err => Some (None, Some err, rest)
      end
  end.

(** [scanStream]: [state := startState], [tokenType] at its zero value,
    [value] empty. *)
Definition scanStream (input : list rune) : option scanResult :=
  scanLoop startState UnknownToken [] input.

(** [Tokenizer.Next] ([NextToken] in [shlex.go]). *)
Definition Tokenizer_Next (input : list rune) : option scanResult :=
  scanStream input.

(** The loop of [Lexer.Next] ([NextWord] in [shlex.go]): the word, the
    error and the input left.  [fuel] bounds the number of turns; [None]
    is a run that gives no result (no fuel left, or a nil token
    dereferenced). *)
Fixpoint Lexer_NextLoop (fuel : nat) (input : list rune)
    : option (list rune * option error * list rune) :=
  match fuel with
  | O => None
  | S fuel =>
      match Tokenizer_Next input with
      | None => None
      | Some (_, Some err, input) => Some ([], Some err, input)
      | Some (None, None, _) => None
      | Some (Some token, None, input) =>
          match tokenType token with
          | WordToken => Some (value token, None, input)
          | CommentToken => Lexer_NextLoop fuel input
          | t => Some ([], Some (ErrUnknownTokenType t), input)
          end
      end
  end.

(** Every turn but the last consumes a comment, hence at least its
    marker: one turn more than the input has runes is enough (lemma
    [Lexer_NextLoop_fuel] below). *)
Definition Lexer_Next (input : list rune)
    : option (list rune * option error * list rune) :=
  Lexer_NextLoop (S (length input)) input.

(** The loop of [Split]. *)
Fixpoint SplitLoop (fuel : nat) (subStrings : list (list rune)) (input : list rune)
    : option (list (list rune) * option error) :=
  match fuel with
  | O => None
  | S fuel =>
      match Lexer_Next input with
      | None => None
      | Some (word, Some err, _) =>
          if decide (err = EOF) then Some (subStrings, None)
          else Some (subStrings, Some err)
      | Some (word, None, input) => SplitLoop fuel (subStrings ++ [word]) input
      end
  end.

(** [Split] of [part_000]: [NewLexer] on a reader of [s], then the loop
    from the empty slice. *)
Definition Split (s : list rune) : option (list (list rune) * option error) :=
  SplitLoop (S (length s)) [] s.

End Scanner.

(** ** What is particular to each file *)

(** [src/shlex.go]. *)
Module ShlexGo.

(** The named sets of runes, each as the runes of its string constant. *)
Definition RUNE_CHAR : list rune :=
  runes "abcdefghijklmnopqrstuvwxyzABCDEFGHIJKLMNOPQRSTUVWXYZ0123456789._-,".
Definition RUNE_SPACE : list rune := [32; 9; 13; 10]%Z.  (* space, \t, \r, \n *)
Definition RUNE_ESCAPING_QUOTE : list rune := [34]%Z.    (* the double quote *)
Definition RUNE_NONESCAPING_QUOTE : list rune := runes "'".
Definition RUNE_ESCAPE : list rune := runes "\".
Definition RUNE_COMMENT : list rune := runes "#".

Definition NewDefaultClassifier : tokenClassifier :=
  let typeMap := ∅ in
  let typeMap := addRuneClass typeMap RUNE_CHAR charRuneClass in
  let typeMap := addRuneClass typeMap RUNE_SPACE spaceRuneClass in
  let typeMap := addRuneClass typeMap RUNE_ESCAPING_QUOTE escapingQuoteRuneClass in
  let typeMap := addRuneClass typeMap RUNE_NONESCAPING_QUOTE nonEscapingQuoteRuneClass in
  let typeMap := addRuneClass typeMap RUNE_ESCAPE escapeRuneClass in
  let typeMap := addRuneClass typeMap RUNE_COMMENT commentRuneClass in
  typeMap.

(** [NewLexer] returns the lexer and a nil error. *)
Definition NewLexer (r : list rune) : list rune * option error := (r, None).

Definition NextToken : list rune -> option scanResult :=
  Tokenizer_Next NewDefaultClassifier.

Definition NextWord : list rune -> option (list rune * option error * list rune) :=
  Lexer_Next NewDefaultClassifier.

(** [Split]: the error of [NewLexer] is checked first (a nil slice goes
    with it), then the same loop. *)
Definition Split (s : list rune) : option (list (list rune) * option error) :=
  match NewLexer s with
  | (_, Some err) => Some ([], Some err)
  | (l, None) => SplitLoop NewDefaultClassifier (S (length l)) [] l
  end.

End ShlexGo.

(** [src/unnamed/part_000]. *)
Module Part000.

(** The named classes of runes, each as the runes of its string constant. *)
Definition charRunes : list rune :=
  runes "abcdefghijklmnopqrstuvwxyzABCDEFGHIJKLMNOPQRSTUVWXYZ0123456789._-,|".
Definition spaceRunes : list rune := [32; 9; 13; 10]%Z.  (* space, \t, \r, \n *)
Definition escapingQuoteRunes : list rune := [34]%Z.     (* the double quote *)
Definition nonEscapingQuoteRunes : list rune := runes "'".
Definition escapeRunes : list rune := runes "\".
Definition commentRunes : list rune := runes "#".

Definition NewDefaultClassifier : tokenClassifier :=
  let typeMap := ∅ in
  let typeMap := addRuneClass typeMap charRunes charRuneClass in
  let typeMap := addRuneClass typeMap spaceRunes spaceRuneClass in
  let typeMap := addRuneClass typeMap escapingQuoteRunes escapingQuoteRuneClass in
  let typeMap := addRuneClass typeMap nonEscapingQuoteRunes nonEscapingQuoteRuneClass in
  let typeMap := addRuneClass typeMap escapeRunes escapeRuneClass in
  let typeMap := addRuneClass typeMap commentRunes commentRuneClass in
  typeMap.

Definition NewLexer (r : list rune) : list rune := r.

Definition Next : list rune -> option scanResult :=
  Tokenizer_Next NewDefaultClassifier.

Definition Lexer_Next : list rune -> option (list rune * option error * list rune) :=
  Lexer_Next NewDefaultClassifier.

Definition Split (s : list rune) : option (list (list rune) * option error) :=
  Split NewDefaultClassifier (NewLexer s).

End Part000.

(** [strings.Join(words, " ")]. *)
Fixpoint join (words : list (list rune)) : list rune :=
  match words with
  | [] => []
  | [w] => w
  | w :: ws => w ++ 32%Z :: join ws
  end.


(** ** The two files side by side *)

Inductive sourceFile : Set := shlex_go | part_000.

Definition classifierOf (f : sourceFile) : tokenClassifier :=
  match f with
  | shlex_go => ShlexGo.NewDefaultClassifier
  | part_000 => Part000.NewDefaultClassifier
  end.

Definition NextTokenOf (f : sourceFile) : list rune -> option scanResult :=
  match f with
  | shlex_go => ShlexGo.NextToken
  | part_000 => Part000.Next
  end.

Definition NextWordOf (f : sourceFile)
    : list rune -> option (list rune * option error * list rune) :=
  match f with
  | shlex_go => ShlexGo.NextWord
  | part_000 => Part000.Lexer_Next
  end.

Definition SplitOf (f : sourceFile)
    : list rune -> option (list (list rune) * option error) :=
  match f with
  | shlex_go => ShlexGo.Split
  | part_000 => Part000.Split
  end.

(** ** Notions the statements use *)

(** The class of a rune in a classifier built from six sets in the order of
    [NewDefaultClassifier]: the last set that holds the rune decides. *)
Definition classOf (chars spaces escQuotes quotes escapes comments : list rune)
    (r : rune) : runeTokenClass :=
  if decide (r ∈ comments) then commentRuneClass
  else if decide (r ∈ escapes) then escapeRuneClass
  else if decide (r ∈ quotes) then nonEscapingQuoteRuneClass
  else if decide (r ∈ escQuotes) then escapingQuoteRuneClass
  else if decide (r ∈ spaces) then spaceRuneClass
  else if decide (r ∈ chars) then charRuneClass
  else unknownRuneClass.



(** [LexerWords classifier input words err]: successive calls of
    [Lexer.Next] on [input] return the words [words], in this order, and the
    call after them fails with [err]. *)
Inductive LexerWords (classifier : tokenClassifier)
    : list rune -> list (list rune) -> error -> Prop :=
| LexerWords_fail input word err rest :
    Lexer_Next classifier input = Some (word, Some err, rest) ->
    LexerWords classifier input [] err
| LexerWords_word input word rest words err :
    Lexer_Next classifier input = Some (word, None, rest) ->
    LexerWords classifier rest words err ->
    LexerWords classifier input (word :: words) err.

(** What stands between two double quotes: a rune as it is, or a rune after
    an escape rune.  [render] is the input that spells the items, [text] the
    runes they stand for. *)
Inductive quotedItem : Type :=
| Plain (r : rune)
| Escaped (r : rune).

Definition render (items : list quotedItem) : list rune :=
  items ≫= (λ i, match i with Plain r => [r] | Escaped r => [92%Z; r] end).

Definition text (items : list quotedItem) : list rune :=
  (λ i, match i with Plain r | Escaped r => r end) <$> items.

(** An item the double-quoted states accept without leaving the quotes: a
    plain rune of class char, space, non-escaping quote or comment, or any
    classified rune after the escape rune. *)
Definition quotable (classifier : tokenClassifier) (i : quotedItem) : bool :=
  match i with
  | Plain r =>
      match ClassifyRune classifier r with
      | charRuneClass | spaceRuneClass | nonEscapingQuoteRuneClass
      | commentRuneClass => true
      | _ => false
      end
  | Escaped r =>
      match ClassifyRune classifier r with
      | unknownRuneClass | eofRuneClass => false
      | _ => true
      end
  end.

(** A rune the single-quoted state takes as text: any classified rune but
    the single quote. *)
Definition literal (classifier : tokenClassifier) (r : rune) : bool :=
  match ClassifyRune classifier r with
  | unknownRuneClass | eofRuneClass | nonEscapingQuoteRuneClass => false
  | _ => true
  end.

(** A rune that goes on with a word in progress: class char or comment. *)
Definition wordRune (classifier : tokenClassifier) (r : rune) : bool :=
  match ClassifyRune classifier r with
  | charRuneClass | commentRuneClass => true
  | _ => false
  end.

(** A word that needs no quoting: a rune of class char followed by runes of
    class char or comment. *)
Definition plainWord (classifier : tokenClassifier) (w : list rune) : bool :=
  match w with
  | [] => false
  | r :: w =>
      bool_decide (ClassifyRune classifier r = charRuneClass) &&
      forallb (wordRune classifier) w
  end.

(** A rune that starts quoting or escaping: a quote or the escape rune. *)
Definition quoting (classifier : tokenClassifier) (r : rune) : bool :=
  match ClassifyRune classifier r with
  | escapingQuoteRuneClass | nonEscapingQuoteRuneClass | escapeRuneClass => true
  | _ => false
  end.

(** The token type the loop holds in each state. *)
Definition tokenTypeIn (state : lexerState) (tokenType : TokenType) : Prop :=
  match state with
  | startState => True
  | commentState => tokenType = CommentToken
  | _ => tokenType = WordToken
  end.

(** An input without quotes and escape runes. *)
Definition unquoted (classifier : tokenClassifier) (input : list rune) : Prop :=
  Forall (λ r, quoting classifier r = false) input.

(** ** Notions the further properties use *)

(** A rune the classifier has a class for. *)
Definition classified (classifier : tokenClassifier) (r : rune) : bool :=
  match ClassifyRune classifier r with
  | unknownRuneClass => false
  | _ => true
  end.

(** A rune the two states after an escape rune accept: any class but
    unknown and the end of the input. *)
Definition escapable (classifier : tokenClassifier) (r : rune) : bool :=
  match ClassifyRune classifier r with
  | unknownRuneClass | eofRuneClass => false
  | _ => true
  end.

(** Where a call stopped: [consumed] is what it read for good, [rest] what
    it left.  An unknown-rune error names the last rune read, which has no
    class while all before it have one; the other errors come at the end of
    the input, with every rune classified; so does a return without error,
    anywhere in the input. *)
Definition stoppedAt (classifier : tokenClassifier) (err : option error)
    (consumed rest : list rune) : Prop :=
  match err with
  | Some (ErrUnknownRune r) =>
      ∃ pre, consumed = pre ++ [r] ∧
             Forall (λ r, classified classifier r = true) pre ∧
             classified classifier r = false
  | Some (ErrUnknownTokenType _) => False
  | Some _ => Forall (λ r, classified classifier r = true) consumed ∧ rest = []
  | None => Forall (λ r, classified classifier r = true) consumed
  end.

(** The pieces an unquoted word is written with: a bare rune, an escaped
    rune, a span in single quotes, a span in double quotes. *)
Inductive segment : Type :=
| Bare (r : rune)
| Esc (r : rune)
| SQuoted (inner : list rune)
| DQuoted (items : list quotedItem).

Definition renderSegment (s : segment) : list rune :=
  match s with
  | Bare r => [r]
  | Esc r => [92%Z; r]
  | SQuoted inner => 39%Z :: inner ++ [39%Z]
  | DQuoted items => 34%Z :: render items ++ [34%Z]
  end.

Definition segmentText (s : segment) : list rune :=
  match s with
  | Bare r | Esc r => [r]
  | SQuoted inner => inner
  | DQuoted items => text items
  end.

Definition renderWord (segments : list segment) : list rune :=
  segments ≫= renderSegment.

Definition wordText (segments : list segment) : list rune :=
  segments ≫= segmentText.

(** A segment the state machine reads as written: a bare rune of class
    char (or comment, when not the first rune of the word), an escaped rune
    of any class, single quotes around runes that are classified and no
    single quote, double quotes around quotable items. *)
Definition segmentOk (classifier : tokenClassifier) (first : bool) (s : segment) : bool :=
  match s with
  | Bare r =>
      if first then bool_decide (ClassifyRune classifier r = charRuneClass)
      else wordRune classifier r
  | Esc r => escapable classifier r
  | SQuoted inner => forallb (literal classifier) inner
  | DQuoted items => forallb (quotable classifier) items
  end.

Definition wordOk (classifier : tokenClassifier) (segments : list segment) : bool :=
  match segments with
  | [] => false
  | s :: segments =>
      segmentOk classifier true s && forallb (segmentOk classifier false) segments
  end.

(** A word in single quotes. *)
Definition squote (w : list rune) : list rune := 39%Z :: w ++ [39%Z].

(** Splitting at runes of class space: [cur] is the field in progress. *)
Fixpoint fields (classifier : tokenClassifier) (cur : list rune) (input : list rune)
    : list (list rune) :=
  match input with
  | [] => match cur with [] => [] | _ => [cur] end
  | r :: rest =>
      if decide (ClassifyRune classifier r = spaceRuneClass)
      then match cur with
           | [] => fields classifier [] rest
           | _ => cur :: fields classifier [] rest
           end
      else fields classifier (cur ++ [r]) rest
  end.


(** Calling [Tokenizer.Next] until it fails: the tokens returned and the
    error that ended the run ([io.EOF] at the end of the stream). *)
Fixpoint tokensLoop (classifier : tokenClassifier) (fuel : nat) (input : list rune)
    : option (list Token * error) :=
  match fuel with
  | O => None
  | S fuel =>
      match Tokenizer_Next classifier input with
      | None => None
      | Some (_, Some err, _) => Some ([], err)
      | Some (None, None, _) => None
      | Some (Some token, None, input) =>
          (λ r, (token :: r.1, r.2)) <$> tokensLoop classifier fuel input
      end
  end.

Definition tokens (classifier : tokenClassifier) (input : list rune)
    : option (list Token * error) :=
  tokensLoop classifier (S (length input)) input.

(** The sets of runes of each file. *)
Definition charsOf (f : sourceFile) : list rune :=
  match f with
  | shlex_go => ShlexGo.RUNE_CHAR
  | part_000 => Part000.charRunes
  end.








(** * Properties *)

(** ** The classifier as a table *)

Lemma lookup_addRuneClass (m : tokenClassifier) rs t (r : rune) :
  addRuneClass m rs t !! r = if decide (r ∈ rs) then Some t else m !! r.
Proof.
  revert m; induction rs as [|a rs IH]; intros m; cbn.
  - case_decide as H; [by apply elem_of_nil in H | done].
  - fold (addRuneClass (<[a:=t]> m) rs t). rewrite IH.
    destruct (decide (r ∈ rs)) as [Hin|Hnin].
    + rewrite decide_True; [done | by right].
    + destruct (decide (r = a)) as [->|Hne].
      * rewrite decide_True; [by rewrite lookup_insert_eq | by left].
      * rewrite decide_False; [by rewrite lookup_insert_ne | ].
        intros [?|?]%elem_of_cons; done.
Qed.

Lemma ClassifyRune_ShlexGo r :
  ClassifyRune ShlexGo.NewDefaultClassifier r =
  classOf ShlexGo.RUNE_CHAR ShlexGo.RUNE_SPACE ShlexGo.RUNE_ESCAPING_QUOTE
    ShlexGo.RUNE_NONESCAPING_QUOTE ShlexGo.RUNE_ESCAPE ShlexGo.RUNE_COMMENT r.
Proof.
  unfold ClassifyRune, ShlexGo.NewDefaultClassifier, classOf.
  rewrite !lookup_addRuneClass, lookup_empty.
  repeat case_decide; reflexivity.
Qed.

Lemma ClassifyRune_Part000 r :
  ClassifyRune Part000.NewDefaultClassifier r =
  classOf Part000.charRunes Part000.spaceRunes Part000.escapingQuoteRunes
    Part000.nonEscapingQuoteRunes Part000.escapeRunes Part000.commentRunes r.
Proof.
  unfold ClassifyRune, Part000.NewDefaultClassifier, classOf.
  rewrite !lookup_addRuneClass, lookup_empty.
  repeat case_decide; reflexivity.
Qed.

Lemma classOf_not_eof chars spaces escQuotes quotes escapes comments r :
  classOf chars spaces escQuotes quotes escapes comments r ≠ eofRuneClass.
Proof. unfold classOf. repeat case_decide; discriminate. Qed.

(** ** The scanning loop *)

Section ScannerFacts.

Variable classifier : tokenClassifier.

(** At the end of the input every state leaves the loop. *)
Lemma scanStep_eof state tokenType value r :
  scanStep state tokenType value r eofRuneClass =
  match state with
  | startState => ReturnNil EOF
  | inWordState | commentState => BreakScan state tokenType value None false
  | escapingState | escapingQuotedState =>
      BreakScan state tokenType value (Some ErrEOFAfterEscape) false
  | quotingEscapingState | quotingState =>
      BreakScan state tokenType value (Some ErrEOFInQuote) false
  end.
Proof. by destruct state. Qed.

(** Only the start state goes round the loop into the start state. *)
Lemma scanStep_Continue_start state tokenType value r c tokenType' value' :
  scanStep state tokenType value r c = Continue startState tokenType' value' →
  state = startState.
Proof.
  destruct state, c; cbn; try discriminate; try done.
  case_decide; discriminate.
Qed.

(** The start state never breaks out of the loop. *)
Lemma scanStep_start_no_break tokenType value r c st' tt' v' err unread :
  scanStep startState tokenType value r c ≠ BreakScan st' tt' v' err unread.
Proof. by destruct c. Qed.

(** The loop always returns. *)
Lemma scanLoop_total input : ∀ state tokenType value,
  is_Some (scanLoop classifier state tokenType value input).
Proof.
  induction input as [|r rest IH]; intros state tokenType value; cbn [scanLoop].
  - rewrite scanStep_eof. by destruct state.
  - destruct (scanStep _ _ _ _ _); eauto.
Qed.

(** A nil token always comes with an error. *)
Lemma scanLoop_nil_error input : ∀ state tokenType value err rest,
  scanLoop classifier state tokenType value input = Some (None, err, rest) →
  is_Some err.
Proof.
  induction input as [|r rest' IH]; intros state tokenType value err rest;
    cbn [scanLoop].
  - destruct (scanStep _ _ _ _ _); intros; simplify_eq; eauto.
  - destruct (scanStep _ _ _ _ _); intros; simplify_eq; eauto.
Qed.

(** Outside the start state the loop leaves at most the input it got. *)
Lemma scanLoop_length input : ∀ state tokenType value res rest,
  state ≠ startState →
  scanLoop classifier state tokenType value input = Some (res, rest) →
  length rest ≤ length input.
Proof.
  induction input as [|r rest' IH]; intros state tokenType value res rest Hst;
    cbn [scanLoop].
  - destruct (scanStep _ _ _ _ _); intros; simplify_eq; cbn; lia.
  - destruct (scanStep _ _ _ _ _) as [st' tt' v'| st' tt' v' e u |e] eqn:Hstep;
      intros Hres.
    + apply IH in Hres; [cbn; lia|].
      intros ->. by apply scanStep_Continue_start in Hstep.
    + simplify_eq. destruct u; cbn; lia.
    + simplify_eq. cbn; lia.
Qed.

(** A call that returns a token has read at least one rune for good. *)
Lemma scanLoop_start_length input : ∀ tokenType value token err rest,
  scanLoop classifier startState tokenType value input = Some (Some token, err, rest) →
  length rest < length input.
Proof.
  induction input as [|r rest' IH]; intros tokenType value token err rest;
    cbn [scanLoop].
  - rewrite scanStep_eof. discriminate.
  - destruct (scanStep _ _ _ _ _) as [st' tt' v'| st' tt' v' e u |e] eqn:Hstep;
      intros Hres.
    + destruct (decide (st' = startState)) as [->|Hne].
      * apply IH in Hres. cbn; lia.
      * apply scanLoop_length in Hres; [cbn; lia | done].
    + by apply scanStep_start_no_break in Hstep.
    + simplify_eq.
Qed.

Lemma scanStream_length input token err rest :
  scanStream classifier input = Some (Some token, err, rest) →
  length rest < length input.
Proof. apply scanLoop_start_length. Qed.

End ScannerFacts.

(** ** The loops of the lexer and of Split *)

Section LexerFacts.

Variable classifier : tokenClassifier.

(** Any fuel above the length of the input gives the loop of
    [Lexer.Next] the same result. *)
Lemma Lexer_NextLoop_fuel fuel : ∀ fuel' input,
  length input < fuel → length input < fuel' →
  Lexer_NextLoop classifier fuel input = Lexer_NextLoop classifier fuel' input.
Proof.
  induction fuel as [|fuel IH]; intros fuel' input Hf Hf'; [lia|].
  destruct fuel' as [|fuel']; [lia|]. cbn [Lexer_NextLoop].
  destruct (Tokenizer_Next classifier input) as [[[[token|] [err|]] rest]|] eqn:Hscan;
    try reflexivity.
  destruct (tokenType token); try reflexivity.
  apply scanStream_length in Hscan. apply IH; lia.
Qed.

(** [Lexer.Next] as the loop reads: call the tokenizer, pass an error on,
    return a word, skip a comment. *)
Lemma Lexer_Next_unfold input :
  Lexer_Next classifier input =
  match Tokenizer_Next classifier input with
  | None => None
  | Some (_, Some err, rest) => Some ([], Some err, rest)
  | Some (None, None, _) => None
  | Some (Some token, None, rest) =>
      match tokenType token with
      | WordToken => Some (value token, None, rest)
      | CommentToken => Lexer_Next classifier rest
      | t => Some ([], Some (ErrUnknownTokenType t), rest)
      end
  end.
Proof.
  unfold Lexer_Next at 1. cbn [Lexer_NextLoop].
  destruct (Tokenizer_Next classifier input) as [[[[token|] [err|]] rest]|] eqn:Hscan;
    try reflexivity.
  destruct (tokenType token); try reflexivity.
  apply scanStream_length in Hscan. apply Lexer_NextLoop_fuel; lia.
Qed.

(** [Lexer.Next] always returns, and a word costs at least one rune. *)
Lemma Lexer_Next_total input : is_Some (Lexer_Next classifier input).
Proof.
  induction input as [input IH] using (induction_ltof1 _ length).
  unfold ltof in IH. rewrite Lexer_Next_unfold.
  destruct (scanLoop_total classifier input startState UnknownToken [])
    as [[[token err] rest] Hscan].
  unfold Tokenizer_Next, scanStream. rewrite Hscan.
  destruct err as [err|]; [destruct token; by eexists|].
  destruct token as [token|].
  - apply scanLoop_start_length in Hscan.
    destruct (tokenType token); by eauto.
  - by apply scanLoop_nil_error in Hscan as [? ?].
Qed.

Lemma Lexer_Next_length input : ∀ word rest,
  Lexer_Next classifier input = Some (word, None, rest) →
  length rest < length input.
Proof.
  induction input as [input IH] using (induction_ltof1 _ length).
  unfold ltof in IH. intros word rest. rewrite Lexer_Next_unfold.
  destruct (Tokenizer_Next classifier input) as [[[[token|] [err|]] rest']|] eqn:Hscan;
    try discriminate.
  apply scanStream_length in Hscan.
  destruct (tokenType token); try discriminate.
  - intros; simplify_eq. done.
  - intros Hnext. apply IH in Hnext; [lia | done].
Qed.

(** Any fuel above the length of the input gives the loop of [Split]
    the same result. *)
Lemma SplitLoop_fuel fuel : ∀ fuel' subStrings input,
  length input < fuel → length input < fuel' →
  SplitLoop classifier fuel subStrings input =
  SplitLoop classifier fuel' subStrings input.
Proof.
  induction fuel as [|fuel IH]; intros fuel' subStrings input Hf Hf'; [lia|].
  destruct fuel' as [|fuel']; [lia|]. cbn [SplitLoop].
  destruct (Lexer_Next classifier input) as [[[word [err|]] rest]|] eqn:Hnext;
    try reflexivity.
  apply Lexer_Next_length in Hnext. apply IH; lia.
Qed.

(** The words already collected stay in front of the ones to come. *)
Lemma SplitLoop_acc fuel : ∀ subStrings input,
  SplitLoop classifier fuel subStrings input =
  (λ r, (subStrings ++ r.1, r.2)) <$> SplitLoop classifier fuel [] input.
Proof.
  induction fuel as [|fuel IH]; intros subStrings input; [done|].
  cbn [SplitLoop].
  destruct (Lexer_Next classifier input) as [[[word [err|]] rest]|]; [| |done].
  - case_decide; cbn; by rewrite app_nil_r.
  - rewrite (IH (subStrings ++ [word])), (IH ([] ++ [word])).
    destruct (SplitLoop classifier fuel [] rest) as [[ws e]|]; cbn; [|done].
    by rewrite <-app_assoc.
Qed.

(** [Split] as a recursion on the input: the first word of the lexer in
    front of the words of the rest; the end of the stream is success, any
    other error is returned with nothing after it. *)
Lemma Split_unfold input :
  Split classifier input =
  match Lexer_Next classifier input with
  | None => None
  | Some (_, Some err, _) =>
      Some ([], if decide (err = EOF) then None else Some err)
  | Some (word, None, rest) =>
      (λ r, (word :: r.1, r.2)) <$> Split classifier rest
  end.
Proof.
  unfold Split at 1. cbn [SplitLoop].
  destruct (Lexer_Next classifier input) as [[[word [err|]] rest]|] eqn:Hnext;
    [by case_decide| |done].
  apply Lexer_Next_length in Hnext.
  rewrite SplitLoop_acc. unfold Split.
  rewrite (SplitLoop_fuel (length input) (S (length rest))) by lia.
  done.
Qed.

Lemma Split_total input : is_Some (Split classifier input).
Proof.
  induction input as [input IH] using (induction_ltof1 _ length).
  unfold ltof in IH. rewrite Split_unfold.
  destruct (Lexer_Next_total input) as [[[word [err|]] rest] Hnext];
    rewrite Hnext; [by eexists|].
  apply Lexer_Next_length in Hnext.
  destruct (IH rest Hnext) as [r ->]. cbn; eauto.
Qed.

End LexerFacts.

Lemma ShlexGo_Split_eq s : ShlexGo.Split s = Split ShlexGo.NewDefaultClassifier s.
Proof. reflexivity. Qed.

Lemma Part000_Split_eq s : Part000.Split s = Split Part000.NewDefaultClassifier s.
Proof. reflexivity. Qed.

(** ** Two classifiers that agree on the runes of the input *)

Section Agreement.

Variables c1 c2 : tokenClassifier.

(** What a call leaves in the reader is a suffix of what it found. *)
Lemma scanLoop_suffix input : ∀ state tokenType value res rest,
  scanLoop c1 state tokenType value input = Some (res, rest) →
  rest `suffix_of` input.
Proof.
  induction input as [|r rest' IH]; intros state tokenType value res rest;
    cbn [scanLoop].
  - destruct (scanStep _ _ _ _ _); intros; by simplify_eq.
  - destruct (scanStep _ _ _ _ _) as [st' tt' v'| st' tt' v' e u |e]; intros Hres.
    + apply suffix_cons_r. eapply IH, Hres.
    + simplify_eq. destruct u; [done | by apply suffix_cons_r].
    + simplify_eq. by apply suffix_cons_r.
Qed.

Lemma Forall_suffix {A} (P : A → Prop) (l k : list A) :
  l `suffix_of` k → Forall P k → Forall P l.
Proof. intros [k' ->] H. by apply Forall_app in H as [_ ?]. Qed.

Lemma scanLoop_agree input : ∀ state tokenType value,
  Forall (λ r, ClassifyRune c1 r = ClassifyRune c2 r) input →
  scanLoop c1 state tokenType value input = scanLoop c2 state tokenType value input.
Proof.
  induction input as [|r rest IH]; intros state tokenType value Hall; [done|].
  apply Forall_cons in Hall as [Hr Hall]. cbn [scanLoop].
  cbn beta in Hr. rewrite <-Hr.
  destruct (scanStep _ _ _ _ _); [by apply IH | done | done].
Qed.

Lemma Lexer_NextLoop_agree fuel : ∀ input,
  Forall (λ r, ClassifyRune c1 r = ClassifyRune c2 r) input →
  Lexer_NextLoop c1 fuel input = Lexer_NextLoop c2 fuel input.
Proof.
  induction fuel as [|fuel IH]; intros input Hall; [done|].
  cbn [Lexer_NextLoop]. unfold Tokenizer_Next, scanStream.
  rewrite <-(scanLoop_agree input) by done.
  destruct (scanLoop c1 _ _ _ input) as [[[[token|] [err|]] rest]|] eqn:Hscan;
    try reflexivity.
  destruct (tokenType token); try reflexivity.
  apply IH. eapply Forall_suffix, Hall. eapply scanLoop_suffix, Hscan.
Qed.

End Agreement.

Lemma Lexer_Next_suffix classifier input : ∀ word err rest,
  Lexer_Next classifier input = Some (word, err, rest) →
  rest `suffix_of` input.
Proof.
  induction input as [input IH] using (induction_ltof1 _ length).
  unfold ltof in IH. intros word err rest. rewrite Lexer_Next_unfold.
  destruct (Tokenizer_Next classifier input) as [[[[token|] [e|]] rest']|] eqn:Hscan;
    try discriminate.
  - intros; simplify_eq. eapply scanLoop_suffix, Hscan.
  - pose proof (scanLoop_suffix _ _ _ _ _ _ _ Hscan) as Hsuf.
    apply scanStream_length in Hscan.
    destruct (tokenType token); intros Hnext; simplify_eq; try done.
    etrans; [eapply IH, Hnext; done | done].
  - intros; simplify_eq. eapply scanLoop_suffix, Hscan.
Qed.

Lemma SplitLoop_agree c1 c2 fuel : ∀ subStrings input,
  Forall (λ r, ClassifyRune c1 r = ClassifyRune c2 r) input →
  SplitLoop c1 fuel subStrings input = SplitLoop c2 fuel subStrings input.
Proof.
  induction fuel as [|fuel IH]; intros subStrings input Hall; [done|].
  cbn [SplitLoop]. unfold Lexer_Next.
  rewrite <-(Lexer_NextLoop_agree c1 c2) by done.
  destruct (Lexer_NextLoop c1 _ input) as [[[word [err|]] rest]|] eqn:Hnext;
    try reflexivity.
  apply IH. eapply Forall_suffix, Hall. eapply Lexer_Next_suffix, Hnext.
Qed.

(** ** The default classifiers *)

Lemma charRunes_RUNE_CHAR : Part000.charRunes = ShlexGo.RUNE_CHAR ++ [124%Z].
Proof. reflexivity. Qed.

(** Away from the pipe the two default classifiers are one table. *)
Lemma ClassifyRune_files r :
  r ≠ 124%Z →
  ClassifyRune ShlexGo.NewDefaultClassifier r =
  ClassifyRune Part000.NewDefaultClassifier r.
Proof.
  intros Hr. rewrite ClassifyRune_ShlexGo, ClassifyRune_Part000.
  unfold classOf. rewrite charRunes_RUNE_CHAR.
  change Part000.commentRunes with ShlexGo.RUNE_COMMENT.
  change Part000.escapeRunes with ShlexGo.RUNE_ESCAPE.
  change Part000.nonEscapingQuoteRunes with ShlexGo.RUNE_NONESCAPING_QUOTE.
  change Part000.escapingQuoteRunes with ShlexGo.RUNE_ESCAPING_QUOTE.
  change Part000.spaceRunes with ShlexGo.RUNE_SPACE.
  repeat case_decide; try reflexivity; exfalso.
  - match goal with H : _ ∉ _ ++ _ |- _ => apply H, elem_of_app; by left end.
  - match goal with
    | H : _ ∈ _ ++ _ |- _ => apply elem_of_app in H as [?|?%list_elem_of_singleton]
    end; done.
Qed.

(** No rune is classified as the end of the input. *)
Lemma ClassifyRune_not_eof f r : ClassifyRune (classifierOf f) r ≠ eofRuneClass.
Proof.
  destruct f; cbn [classifierOf];
    [rewrite ClassifyRune_ShlexGo | rewrite ClassifyRune_Part000];
    apply classOf_not_eof.
Qed.

(** The runes of the five marked classes. *)
Lemma ClassifyRune_marks f r :
  match ClassifyRune (classifierOf f) r with
  | spaceRuneClass => r ∈ [32; 9; 13; 10]%Z
  | escapingQuoteRuneClass => r = 34%Z
  | nonEscapingQuoteRuneClass => r = 39%Z
  | escapeRuneClass => r = 92%Z
  | commentRuneClass => r = 35%Z
  | _ => True
  end.
Proof.
  destruct f; cbn [classifierOf];
    [rewrite ClassifyRune_ShlexGo | rewrite ClassifyRune_Part000];
    unfold classOf; repeat case_decide; try done;
    match goal with
    | H : r ∈ _ |- r = _ => by apply (list_elem_of_singleton r) in H
    end.
Qed.

Lemma ClassifyRune_marked f :
  ClassifyRune (classifierOf f) 32%Z = spaceRuneClass ∧
  ClassifyRune (classifierOf f) 9%Z = spaceRuneClass ∧
  ClassifyRune (classifierOf f) 13%Z = spaceRuneClass ∧
  ClassifyRune (classifierOf f) 10%Z = spaceRuneClass ∧
  ClassifyRune (classifierOf f) 34%Z = escapingQuoteRuneClass ∧
  ClassifyRune (classifierOf f) 39%Z = nonEscapingQuoteRuneClass ∧
  ClassifyRune (classifierOf f) 92%Z = escapeRuneClass ∧
  ClassifyRune (classifierOf f) 35%Z = commentRuneClass.
Proof. by destruct f; vm_compute. Qed.

(** ** The lexer's run and the result of Split *)

Section Runs.

Variable classifier : tokenClassifier.


Lemma scanStep_tokenType state tokenType value r c state' tokenType' value' :
  scanStep state tokenType value r c = Continue state' tokenType' value' →
  tokenTypeIn state tokenType → tokenTypeIn state' tokenType'.
Proof.
  destruct state, c; cbn; intros; simplify_eq; try done;
    case_decide; by simplify_eq.
Qed.


(** The lexer's run always ends in an error, and Split returns the words
    before it; the end of the stream is the error it does not report. *)
Lemma LexerWords_total input : ∃ words err, LexerWords classifier input words err.
Proof.
  induction input as [input IH] using (induction_ltof1 _ length).
  unfold ltof in IH.
  destruct (Lexer_Next_total classifier input) as [[[word [err|]] rest] Hnext].
  - exists [], err. by econstructor.
  - destruct (IH rest) as (words & err & Hrun);
      [by eapply Lexer_Next_length|].
    exists (word :: words), err. by econstructor.
Qed.

Lemma Split_LexerWords input words err :
  LexerWords classifier input words err →
  Split classifier input =
  Some (words, if decide (err = EOF) then None else Some err).
Proof.
  induction 1 as [input word err rest Hnext|input word rest words err Hnext _ IH];
    rewrite Split_unfold, Hnext; [done|].
  by rewrite IH.
Qed.

End Runs.

(** * The claims *)

(** ** C1: the end of the input inside quotes or after an escape *)




(** ** C2: the pipe in the default classifier *)

(** C2, as stated, fails on [src/shlex.go]: [RUNE_CHAR] has no pipe, the
    default classifier leaves it unclassified, and Split on [a|b] returns
    an error instead of the word. *)
Lemma C2_pipe_unknown_in_shlex_go :
  ClassifyRune ShlexGo.NewDefaultClassifier 124%Z = unknownRuneClass ∧
  ShlexGo.Split (runes "a|b") = Some ([], Some (ErrUnknownRune 124%Z)) ∧
  ShlexGo.Split (runes "a|b") ≠ Some ([runes "a|b"], None).
Proof. by vm_compute. Qed.

(** C2, amended: in the default classifier of [part_000] every rune of
    [charRunes] (the ASCII letters and digits and [._-,|]), the pipe among
    them, is of class char, and Split on [a|b] returns the single word
    [a|b]; in the default classifier of [shlex.go] the pipe is of no class
    and Split on [a|b] returns no word and the unknown-rune error. *)
Theorem C2_pipe_classification :
  Forall (λ r, ClassifyRune Part000.NewDefaultClassifier r = charRuneClass)
    Part000.charRunes ∧
  ClassifyRune Part000.NewDefaultClassifier 124%Z = charRuneClass ∧
  Part000.Split (runes "a|b") = Some ([runes "a|b"], None) ∧
  ClassifyRune ShlexGo.NewDefaultClassifier 124%Z = unknownRuneClass ∧
  ShlexGo.Split (runes "a|b") = Some ([], Some (ErrUnknownRune 124%Z)).
Proof.
  split; [|by vm_compute].
  refine (bool_decide_unpack _ _). by vm_compute.
Qed.

(** ** C3: the two files at the entry point Split *)

(** C3, as stated, fails: on [a|b] the Split of [shlex.go] returns no word
    and an error, the Split of [part_000] the word [a|b] and no error. *)
Lemma C3_files_differ_on_pipe :
  ShlexGo.Split (runes "a|b") = Some ([], Some (ErrUnknownRune 124%Z)) ∧
  Part000.Split (runes "a|b") = Some ([runes "a|b"], None) ∧
  ShlexGo.Split (runes "a|b") ≠ Part000.Split (runes "a|b").
Proof. by vm_compute. Qed.

(** C3, amended: for every input in which the pipe does not occur, the
    Split of [shlex.go] and the Split of [part_000] return the same words
    and the same error. *)
Theorem C3_files_agree_without_pipe (s : list rune) :
  124%Z ∉ s → ShlexGo.Split s = Part000.Split s.
Proof.
  intros Hs. rewrite ShlexGo_Split_eq, Part000_Split_eq. unfold Split.
  apply SplitLoop_agree, Forall_forall. intros r Hr.
  apply ClassifyRune_files. by intros ->.
Qed.

Lemma C3_files_agree_without_pipe_witness :
  (124%Z ∉ runes "one #two") ∧
  ShlexGo.Split (runes "one #two") = Part000.Split (runes "one #two").
Proof.
  assert (H : 124%Z ∉ runes "one #two").
  { refine (bool_decide_unpack _ _). vm_compute. exact I. }
  split; [exact H | exact (C3_files_agree_without_pipe (runes "one #two") H)].
Defined.

(** ** C4: the words before a failure *)

(** C4: when the calls of the lexer return the words [words] and then fail
    with an error that is not the end of the stream, Split returns exactly
    [words], in this order, together with that error (and every input has
    such a run of the lexer, which decides the result of Split); so on
    [trailing\] it returns the error and no word, and complete words before
    an unterminated escape, an unterminated quote or an unclassified rune
    are kept while the text of the word in progress is not. *)
Theorem C4_words_before_failure :
  (∀ f input words err,
     LexerWords (classifierOf f) input words err → err ≠ EOF →
     SplitOf f input = Some (words, Some err)) ∧
  (∀ f input, ∃ words err,
     LexerWords (classifierOf f) input words err ∧
     SplitOf f input = Some (words, if decide (err = EOF) then None else Some err)) ∧
  (∀ f, SplitOf f (runes "trailing\") = Some ([], Some ErrEOFAfterEscape)) ∧
  (∀ f, SplitOf f (runes "one two\") = Some ([runes "one"], Some ErrEOFAfterEscape)) ∧
  (∀ f, SplitOf f (runes "one two 'three") =
        Some ([runes "one"; runes "two"], Some ErrEOFInQuote)) ∧
  (∀ f, SplitOf f (runes "one tw=o three") =
        Some ([runes "one"], Some (ErrUnknownRune 61%Z))).
Proof.
  split; [|split; [|by repeat split; intros []; vm_compute]].
  - intros f input words err Hrun Herr.
    apply Split_LexerWords in Hrun. rewrite decide_False in Hrun by done.
    by destruct f.
  - intros f input.
    destruct (LexerWords_total (classifierOf f) input) as (words & err & Hrun).
    exists words, err. split; [done|].
    apply Split_LexerWords in Hrun. by destruct f.
Qed.

Lemma C4_words_before_failure_witness :
  LexerWords Part000.NewDefaultClassifier (runes "one two 'three")
    [runes "one"; runes "two"] ErrEOFInQuote ∧
  ErrEOFInQuote ≠ EOF ∧
  Part000.Split (runes "one two 'three") =
    Some ([runes "one"; runes "two"], Some ErrEOFInQuote).
Proof.
  assert (H : LexerWords Part000.NewDefaultClassifier (runes "one two 'three")
                [runes "one"; runes "two"] ErrEOFInQuote).
  { eapply LexerWords_word; [vm_compute; reflexivity|].
    eapply LexerWords_word; [vm_compute; reflexivity|].
    eapply LexerWords_fail. vm_compute; reflexivity. }
  split; [exact H|]. split; [discriminate|].
  exact (proj1 C4_words_before_failure part_000 _ _ _ H ltac:(discriminate)).
Defined.

(** ** Spans of the input *)

Section Spans.

Variable classifier : tokenClassifier.

(** Inside single quotes every classified rune but the quote is text. *)
Lemma scanLoop_quoting inner : ∀ tokenType value rest,
  Forall (λ r, literal classifier r) inner →
  scanLoop classifier quotingState tokenType value (inner ++ rest) =
  scanLoop classifier quotingState tokenType (value ++ inner) rest.
Proof.
  induction inner as [|r inner IH]; intros tokenType value rest Hall.
  - by rewrite app_nil_r.
  - apply Forall_cons in Hall as [Hr Hall]. cbn [app scanLoop].
    unfold literal in Hr.
    destruct (ClassifyRune classifier r); try done; cbn [scanStep];
      rewrite IH by done; by rewrite <-app_assoc.
Qed.

(** Inside double quotes a rune after the escape rune is text, and so is
    a plain rune of class char, space, non-escaping quote or comment. *)
Lemma scanLoop_quotingEscaping items : ∀ tokenType value rest,
  ClassifyRune classifier 92%Z = escapeRuneClass →
  Forall (λ i, quotable classifier i) items →
  scanLoop classifier quotingEscapingState tokenType value (render items ++ rest) =
  scanLoop classifier quotingEscapingState tokenType (value ++ text items) rest.
Proof.
  intros tokenType value rest Hesc. revert tokenType value.
  induction items as [|i items IH]; intros tokenType value Hall.
  - by rewrite app_nil_r.
  - apply Forall_cons in Hall as [Hi Hall].
    change (render (i :: items)) with
      (match i with Plain r => [r] | Escaped r => [92%Z; r] end ++ render items).
    change (text (i :: items)) with
      (match i with Plain r | Escaped r => r end :: text items).
    rewrite <-app_assoc.
    destruct i as [r|r]; cbn [app scanLoop quotable] in *.
    + destruct (ClassifyRune classifier r); try done; cbn [scanStep];
        rewrite IH by done; by rewrite <-app_assoc.
    + rewrite Hesc. cbn [scanStep].
      destruct (ClassifyRune classifier r); try done; cbn [scanStep];
        rewrite IH by done; by rewrite <-app_assoc.
Qed.

(** In a word runes of class char and comment are appended; the word ends
    before a space, which stays in the reader, and at the end of the
    input. *)
Lemma scanLoop_inWord w : ∀ tokenType value rest,
  forallb (wordRune classifier) w = true →
  scanLoop classifier inWordState tokenType value (w ++ rest) =
  scanLoop classifier inWordState tokenType (value ++ w) rest.
Proof.
  induction w as [|r w IH]; intros tokenType value rest Hall.
  - by rewrite app_nil_r.
  - cbn [forallb] in Hall. apply andb_prop in Hall as [Hr Hall].
    cbn [app scanLoop]. unfold wordRune in Hr.
    destruct (ClassifyRune classifier r); try done; cbn [scanStep];
      rewrite IH by done; by rewrite <-app_assoc.
Qed.

Lemma scanLoop_inWord_space tokenType value r rest :
  ClassifyRune classifier r = spaceRuneClass →
  scanLoop classifier inWordState tokenType value (r :: rest) =
  Some (Some (mkToken tokenType value), None, r :: rest).
Proof. intros Hr. cbn [scanLoop]. by rewrite Hr. Qed.

Lemma scanLoop_inWord_eof tokenType value :
  scanLoop classifier inWordState tokenType value [] =
  Some (Some (mkToken tokenType value), None, []).
Proof. reflexivity. Qed.

(** Before a token a space is skipped. *)
Lemma scanStream_space r input :
  ClassifyRune classifier r = spaceRuneClass →
  scanStream classifier (r :: input) = scanStream classifier input.
Proof. intros Hr. unfold scanStream. cbn [scanLoop]. by rewrite Hr. Qed.

Lemma Lexer_Next_space r input :
  ClassifyRune classifier r = spaceRuneClass →
  Lexer_Next classifier (r :: input) = Lexer_Next classifier input.
Proof.
  intros Hr. rewrite (Lexer_Next_unfold _ (r :: input)), (Lexer_Next_unfold _ input).
  unfold Tokenizer_Next. by rewrite scanStream_space.
Qed.

Lemma Split_space r input :
  ClassifyRune classifier r = spaceRuneClass →
  Split classifier (r :: input) = Split classifier input.
Proof.
  intros Hr. rewrite (Split_unfold _ (r :: input)), (Split_unfold _ input).
  by rewrite Lexer_Next_space.
Qed.

End Spans.

(** ** C5: what ends a comment *)

(** C5: in the comment state, in either file, the newline leaves the loop
    with the state set back to the start state and the token built from the
    value as it stands, the newline consumed and not appended; a space, a
    tab and a carriage return are appended and the comment goes on; no
    other rune than the newline ends the token (a rune is appended, or, when
    of no class, fails the scan); and Split on a comment line followed by
    [word] returns [word] alone. *)
Theorem C5_comment_ends_at_newline (f : sourceFile) :
  (∀ tokenType value,
     scanStep commentState tokenType value 10%Z (ClassifyRune (classifierOf f) 10%Z) =
     BreakScan startState tokenType value None false) ∧
  (∀ tokenType value rest,
     scanLoop (classifierOf f) commentState tokenType value (10%Z :: rest) =
     Some (Some (mkToken tokenType value), None, rest)) ∧
  (∀ tokenType value rest,
     Forall (λ r, scanLoop (classifierOf f) commentState tokenType value (r :: rest) =
                  scanLoop (classifierOf f) commentState tokenType (value ++ [r]) rest)
       [32%Z; 9%Z; 13%Z]) ∧
  (∀ r tokenType value,
     r = 10%Z ∨
     scanStep commentState tokenType value r (ClassifyRune (classifierOf f) r) =
       Continue commentState tokenType (value ++ [r]) ∨
     scanStep commentState tokenType value r (ClassifyRune (classifierOf f) r) =
       ReturnNil (ErrUnknownRune r)) ∧
  NextTokenOf f (runes "# a comment" ++ 10%Z :: runes "word") =
    Some (Some (mkToken CommentToken (runes " a comment")), None, runes "word") ∧
  NextTokenOf f (35%Z :: 9%Z :: 97%Z :: 13%Z :: 32%Z :: 98%Z :: 10%Z :: runes "word") =
    Some (Some (mkToken CommentToken [9%Z; 97%Z; 13%Z; 32%Z; 98%Z]), None, runes "word") ∧
  SplitOf f (runes "# a comment" ++ 10%Z :: runes "word") = Some ([runes "word"], None).
Proof.
  destruct (ClassifyRune_marked f) as (H32 & H9 & H13 & H10 & _).
  split; [|split; [|split; [|split; [|by destruct f; vm_compute]]]].
  - intros. by rewrite H10.
  - intros. cbn [scanLoop]. by rewrite H10.
  - intros. repeat constructor; cbn [scanLoop]; by rewrite ?H32, ?H9, ?H13.
  - intros r tokenType value.
    destruct (decide (r = 10%Z)) as [->|Hr]; [by left | right].
    pose proof (ClassifyRune_not_eof f r) as Heof.
    destruct (ClassifyRune (classifierOf f) r); cbn [scanStep]; try by left.
    + by right.
    + rewrite decide_False by done. by left.
Qed.

(** ** C6: double quotes *)

(** C6: in either file, a span between two double quotes, made of plain
    runes of class char, space, single quote or comment and of escaped
    runes, adds to the value of the word exactly the text of its items: the
    two delimiters and the escape runes are not appended, and the loop goes
    on in the word state; this holds at the start of a word and inside one.
    On [one "two three" four] Split returns [one], [two three], [four]. *)
Theorem C6_double_quotes_stripped (f : sourceFile) :
  (∀ items tokenType value rest,
     Forall (λ i, quotable (classifierOf f) i) items →
     scanLoop (classifierOf f) inWordState tokenType value
       (34%Z :: render items ++ 34%Z :: rest) =
     scanLoop (classifierOf f) inWordState tokenType (value ++ text items) rest ∧
     scanLoop (classifierOf f) startState tokenType value
       (34%Z :: render items ++ 34%Z :: rest) =
     scanLoop (classifierOf f) inWordState WordToken (value ++ text items) rest) ∧
  NextTokenOf f (34%Z :: runes "two three" ++ 34%Z :: runes " four") =
    Some (Some (mkToken WordToken (runes "two three")), None, runes " four") ∧
  NextTokenOf f (34%Z :: runes "a\" ++ 34%Z :: runes "b\\c" ++ [34%Z]) =
    Some (Some (mkToken WordToken (97%Z :: 34%Z :: runes "b\c")), None, []) ∧
  SplitOf f (runes "one " ++ 34%Z :: runes "two three" ++ 34%Z :: runes " four") =
    Some ([runes "one"; runes "two three"; runes "four"], None).
Proof.
  destruct (ClassifyRune_marked f) as (_ & _ & _ & _ & H34 & _ & H92 & _).
  split; [|by destruct f; vm_compute].
  intros items tokenType value rest Hall.
  split; cbn [scanLoop]; rewrite H34; cbn [scanStep];
    rewrite scanLoop_quotingEscaping by done;
    cbn [scanLoop]; by rewrite H34.
Qed.

Lemma C6_double_quotes_stripped_witness :
  scanLoop Part000.NewDefaultClassifier startState UnknownToken []
    (34%Z :: render [Plain 97%Z; Escaped 34%Z; Plain 32%Z; Escaped 92%Z] ++ 34%Z :: runes "b c") =
  scanLoop Part000.NewDefaultClassifier inWordState WordToken
    ([] ++ text [Plain 97%Z; Escaped 34%Z; Plain 32%Z; Escaped 92%Z]) (runes "b c").
Proof.
  apply (proj1 (C6_double_quotes_stripped part_000)).
  repeat (apply Forall_cons; split; [vm_compute; exact I|]). constructor.
Defined.

(** ** C7: single quotes and adjacent segments *)



(** ** C8: the comment marker inside a word *)

(** C8: in either file, in the word state the comment marker is appended
    to the value and the loop stays in the word state with the same token,
    whereas in the start state it opens a comment; on [a#b] the tokenizer
    returns the word [a#b] and so does Split. *)
Theorem C8_comment_marker_in_word (f : sourceFile) :
  (∀ tokenType value,
     scanStep inWordState tokenType value 35%Z (ClassifyRune (classifierOf f) 35%Z) =
     Continue inWordState tokenType (value ++ [35%Z])) ∧
  (∀ tokenType value rest,
     scanLoop (classifierOf f) inWordState tokenType value (35%Z :: rest) =
     scanLoop (classifierOf f) inWordState tokenType (value ++ [35%Z]) rest) ∧
  (∀ tokenType value,
     scanStep startState tokenType value 35%Z (ClassifyRune (classifierOf f) 35%Z) =
     Continue commentState CommentToken value) ∧
  NextTokenOf f (runes "a#b") = Some (Some (mkToken WordToken (runes "a#b")), None, []) ∧
  SplitOf f (runes "a#b") = Some ([runes "a#b"], None) ∧
  SplitOf f (runes "a #b") = Some ([runes "a"], None).
Proof.
  destruct (ClassifyRune_marked f) as (_ & _ & _ & _ & _ & _ & _ & H35).
  repeat split; intros; cbn [scanLoop]; rewrite ?H35; try done;
    by destruct f; vm_compute.
Qed.

(** ** Words that need no quoting *)

Section PlainWords.

Variable classifier : tokenClassifier.

(** In the comment state the token keeps its type. *)
Lemma scanLoop_comment_type input : ∀ ty val token err rest,
  scanLoop classifier commentState ty val input =
    Some (Some token, err, rest) →
  tokenType token = ty.
Proof.
  induction input as [|r input IH]; intros ty val token err rest;
    cbn [scanLoop].
  - cbn. intros; by simplify_eq.
  - destruct (ClassifyRune classifier r); cbn [scanStep];
      try (intros; by simplify_eq); try apply IH.
    case_decide; [intros; by simplify_eq | apply IH].
Qed.

(** Without quotes and escapes a word in progress only grows by runes of
    class char and comment. *)
Lemma scanLoop_inWord_unquoted input : ∀ ty val token rest,
  unquoted classifier input →
  scanLoop classifier inWordState ty val input =
    Some (Some token, None, rest) →
  tokenType token = ty ∧
  ∃ w, value token = val ++ w ∧ forallb (wordRune classifier) w = true.
Proof.
  induction input as [|r input IH]; intros ty val token rest Hall;
    cbn [scanLoop].
  - cbn. intros; simplify_eq. split; [done|]. exists []. by rewrite app_nil_r.
  - apply Forall_cons in Hall as [Hr Hall]. unfold quoting in Hr.
    destruct (ClassifyRune classifier r) eqn:Hcls; cbn [scanStep];
      try discriminate.
    + intros Hscan. apply IH in Hscan as (? & w & -> & Hw); [|done].
      split; [done|]. exists (r :: w). rewrite <-app_assoc. split; [done|].
      cbn [forallb]. unfold wordRune at 1. by rewrite Hcls.
    + intros; simplify_eq. split; [done|]. exists []. by rewrite app_nil_r.
    + intros Hscan. apply IH in Hscan as (? & w & -> & Hw); [|done].
      split; [done|]. exists (r :: w). rewrite <-app_assoc. split; [done|].
      cbn [forallb]. unfold wordRune at 1. by rewrite Hcls.
    + intros; simplify_eq. split; [done|]. exists []. by rewrite app_nil_r.
Qed.

(** Without quotes and escapes a call returns a comment or a plain word. *)
Lemma scanLoop_start_unquoted input : ∀ ty token rest,
  unquoted classifier input →
  scanLoop classifier startState ty [] input =
    Some (Some token, None, rest) →
  tokenType token = CommentToken ∨
  tokenType token = WordToken ∧
  plainWord classifier (value token) = true.
Proof.
  induction input as [|r input IH]; intros ty token rest Hall;
    cbn [scanLoop]; [done|].
  apply Forall_cons in Hall as [Hr Hall]. unfold quoting in Hr.
  destruct (ClassifyRune classifier r) eqn:Hcls; cbn [scanStep];
    try discriminate.
  - intros Hscan. right.
    apply scanLoop_inWord_unquoted in Hscan as (? & w & -> & Hw); [|done].
    split; [done|]. cbn [app plainWord]. rewrite Hw, Hcls. done.
  - by apply IH.
  - intros Hscan. left. by apply scanLoop_comment_type in Hscan.
Qed.

Lemma Lexer_Next_unquoted input : ∀ word rest,
  unquoted classifier input →
  Lexer_Next classifier input = Some (word, None, rest) →
  plainWord classifier word = true.
Proof.
  induction input as [input IH] using (induction_ltof1 _ length).
  unfold ltof in IH. intros word rest Hall. rewrite Lexer_Next_unfold.
  destruct (Tokenizer_Next classifier input) as [[[[token|] [err|]] rest']|] eqn:Hscan;
    try discriminate.
  pose proof (scanLoop_suffix _ _ _ _ _ _ _ Hscan) as Hsuf.
  pose proof (scanStream_length _ _ _ _ _ Hscan) as Hlen.
  apply scanLoop_start_unquoted in Hscan; [|done].
  destruct Hscan as [Htype|[Htype Hplain]]; rewrite Htype.
  - apply IH; [done|]. by eapply Forall_suffix.
  - intros; by simplify_eq.
Qed.

Lemma Split_unquoted input : ∀ words err,
  unquoted classifier input →
  Split classifier input = Some (words, err) →
  Forall (λ w, plainWord classifier w = true) words.
Proof.
  induction input as [input IH] using (induction_ltof1 _ length).
  unfold ltof in IH. intros words err Hall. rewrite Split_unfold.
  destruct (Lexer_Next classifier input) as [[[word [e|]] rest]|] eqn:Hnext;
    try discriminate.
  - intros; simplify_eq. constructor.
  - pose proof (Lexer_Next_suffix _ _ _ _ _ Hnext) as Hsuf.
    pose proof (Lexer_Next_length _ _ _ _ Hnext) as Hlen.
    apply Lexer_Next_unquoted in Hnext; [|done].
    destruct (Split classifier rest) as [[ws e]|] eqn:Hsplit; [|done].
    cbn. intros; simplify_eq. constructor; [done|].
    eapply IH; [done| |done]. by eapply Forall_suffix.
Qed.

(** A plain word in front of a space or of the end of the input is the
    next word of the lexer. *)
Lemma Lexer_Next_plainWord w rest :
  plainWord classifier w = true →
  match rest with
  | [] => True
  | r :: _ => ClassifyRune classifier r = spaceRuneClass
  end →
  Lexer_Next classifier (w ++ rest) = Some (w, None, rest).
Proof.
  destruct w as [|r w]; [done|]. cbn [plainWord].
  intros [Hr Hw]%andb_prop Hrest. apply bool_decide_eq_true_1 in Hr.
  rewrite Lexer_Next_unfold. unfold Tokenizer_Next, scanStream.
  cbn [app scanLoop]. rewrite Hr. cbn [scanStep].
  rewrite scanLoop_inWord by done.
  destruct rest as [|r' rest].
  - by rewrite scanLoop_inWord_eof.
  - by rewrite scanLoop_inWord_space.
Qed.

(** Plain words joined by single spaces split into themselves. *)
Lemma Split_join words :
  ClassifyRune classifier 32%Z = spaceRuneClass →
  Forall (λ w, plainWord classifier w = true) words →
  Split classifier (join words) = Some (words, None).
Proof.
  intros Hsp. induction words as [|w words IH]; intros Hall; [done|].
  apply Forall_cons in Hall as [Hw Hall].
  destruct words as [|w' words].
  - change (join [w]) with w. rewrite <-(app_nil_r w) at 1.
    by rewrite Split_unfold, Lexer_Next_plainWord.
  - change (join (w :: w' :: words)) with (w ++ 32%Z :: join (w' :: words)).
    rewrite Split_unfold, Lexer_Next_plainWord by done.
    rewrite Split_space by done. by rewrite IH.
Qed.

End PlainWords.

(** ** C9: splitting, joining and splitting again *)

(** C9: in either file, when Split succeeds on an input, and the input
    holds no double quote, no single quote and no backslash, or else none
    of the words returned needs quoting (each starts with a rune of class
    char and goes on with runes of class char or comment), then joining the
    words with single spaces and splitting again succeeds with the same
    words. *)
Theorem C9_split_join_split (f : sourceFile) (s : list rune) (words : list (list rune)) :
  SplitOf f s = Some (words, None) →
  Forall (λ r, r ∉ [34%Z; 39%Z; 92%Z]) s ∨
  Forall (λ w, plainWord (classifierOf f) w = true) words →
  SplitOf f (join words) = Some (words, None).
Proof.
  intros Hsplit Hplain.
  assert (Hsplit' : Split (classifierOf f) s = Some (words, None)) by by destruct f.
  assert (Hgoal : Split (classifierOf f) (join words) = Some (words, None)).
  { apply Split_join; [apply ClassifyRune_marked|].
    destruct Hplain as [Hs|Hwords]; [|done].
    eapply Split_unquoted, Hsplit'.
    eapply Forall_impl; [exact Hs|]. intros r Hr. cbn beta in Hr.
    unfold quoting. pose proof (ClassifyRune_marks f r) as Hmark.
    destruct (ClassifyRune (classifierOf f) r); try done;
      subst r; exfalso; apply Hr; set_solver. }
  by destruct f.
Qed.

Lemma C9_split_join_split_witness :
  Part000.Split (runes "one  two#x # c") = Some ([runes "one"; runes "two#x"], None) ∧
  Forall (λ r, r ∉ [34%Z; 39%Z; 92%Z]) (runes "one  two#x # c") ∧
  Part000.Split (join [runes "one"; runes "two#x"]) =
    Some ([runes "one"; runes "two#x"], None).
Proof.
  assert (H : Forall (λ r, r ∉ [34%Z; 39%Z; 92%Z]) (runes "one  two#x # c")).
  { refine (bool_decide_unpack _ _). vm_compute. exact I. }
  assert (H' : Part000.Split (runes "one  two#x # c") =
               Some ([runes "one"; runes "two#x"], None)).
  { vm_compute. reflexivity. }
  split; [exact H'|]. split; [exact H|].
  exact (C9_split_join_split part_000 _ _ H' (or_introl H)).
Defined.

(** The condition cannot be dropped: a quoted word with a space in it comes
    back as two words. *)
Example split_join_split_quoted_space (f : sourceFile) :
  SplitOf f (runes "'a b'") = Some ([runes "a b"], None) ∧
  SplitOf f (join [runes "a b"]) = Some ([runes "a"; runes "b"], None).
Proof. by destruct f; vm_compute. Qed.

(** ** C10: quotes with nothing between them *)


(** * Further properties *)

(** ** One turn of the loop *)

Lemma scanStep_Continue_inv state tokenType value r c state' tokenType' value' :
  scanStep state tokenType value r c = Continue state' tokenType' value' →
  c ≠ unknownRuneClass ∧ c ≠ eofRuneClass ∧
  (value' = value ∨ value' = value ++ [r]).
Proof.
  destruct state, c; cbn; intros; simplify_eq; eauto;
    case_decide; simplify_eq; eauto.
Qed.

Lemma scanStep_BreakScan_inv state tokenType value r c state' tokenType' value' err unread :
  scanStep state tokenType value r c = BreakScan state' tokenType' value' err unread →
  tokenType' = tokenType ∧ value' = value ∧
  (c = eofRuneClass ∨ c = spaceRuneClass ∧ err = None).
Proof.
  destruct state, c; cbn; intros; simplify_eq; eauto;
    case_decide; simplify_eq; eauto.
Qed.

Lemma scanStep_ReturnNil_inv state tokenType value r c err :
  scanStep state tokenType value r c = ReturnNil err →
  c = eofRuneClass ∨ c = unknownRuneClass ∧ err = ErrUnknownRune r.
Proof.
  destruct state, c; cbn; intros; simplify_eq; eauto;
    case_decide; simplify_eq; eauto.
Qed.

(** ** What a call reads and what it returns *)

Section Consumed.

Variable classifier : tokenClassifier.
Hypothesis NoEof : ∀ r, ClassifyRune classifier r ≠ eofRuneClass.

Lemma classified_not_unknown r :
  ClassifyRune classifier r ≠ unknownRuneClass → classified classifier r = true.
Proof. unfold classified. by destruct (ClassifyRune classifier r). Qed.

Lemma scanLoop_consumed input : ∀ state ty val token err rest,
  scanLoop classifier state ty val input = Some (token, err, rest) →
  ∃ consumed,
    input = consumed ++ rest ∧
    (∀ t, token = Some t → ∃ w, value t = val ++ w ∧ w `sublist_of` consumed) ∧
    stoppedAt classifier err consumed rest.
Proof.
  induction input as [|r input IH]; intros state ty val token err rest;
    cbn [scanLoop].
  - rewrite scanStep_eof. intros Hscan. exists [].
    destruct state; simplify_eq; (split; [done|]); cbn;
      (split; [intros; simplify_eq; exists []; by rewrite app_nil_r|]);
      by repeat constructor.
  - destruct (scanStep _ _ _ _ _) as [st' tt' v'| st' tt' v' e u |e] eqn:Hstep.
    + apply scanStep_Continue_inv in Hstep as (Hknown & _ & Hval).
      apply classified_not_unknown in Hknown.
      intros (consumed & -> & Htok & Herr)%IH.
      exists (r :: consumed). split; [done|]. split.
      * intros t (w & -> & Hsub)%Htok.
        destruct Hval as [->| ->].
        -- exists w. split; [done|]. by constructor.
        -- exists (r :: w). rewrite <-app_assoc. split; [done|]. by constructor.
      * destruct err as [[]|]; cbn in *; try done.
        -- destruct Herr; split; [by constructor | done].
        -- destruct Herr as (pre & -> & Hpre & Hr).
           exists (r :: pre). by repeat split; try constructor.
        -- destruct Herr; split; [by constructor | done].
        -- destruct Herr; split; [by constructor | done].
        -- by constructor.
    + apply scanStep_BreakScan_inv in Hstep as (-> & -> & [Heof|[Hsp ->]]);
        [by apply NoEof in Heof|].
      intros; simplify_eq.
      assert (classified classifier r = true) as Hknown.
      { apply classified_not_unknown. by rewrite Hsp. }
      destruct u.
      * exists []. split; [done|]. split; [|by constructor].
        intros; simplify_eq. exists []. by rewrite app_nil_r.
      * exists [r]. split; [done|]. split; [|by repeat constructor].
        intros; simplify_eq. exists []. rewrite app_nil_r. split; [done|].
        apply sublist_nil_l.
    + apply scanStep_ReturnNil_inv in Hstep as [Heof|[Hunk ->]];
        [by apply NoEof in Heof|].
      intros; simplify_eq. exists [r]. split; [done|]. split; [done|].
      exists []. repeat split; [constructor|].
      unfold classified. by rewrite Hunk.
Qed.

(** A token is a word or a comment. *)
Lemma scanLoop_tokenType input : ∀ state ty val token err rest,
  tokenTypeIn state ty →
  scanLoop classifier state ty val input = Some (Some token, err, rest) →
  tokenType token = WordToken ∨ tokenType token = CommentToken.
Proof.
  induction input as [|r input IH]; intros state ty val token err rest Hin;
    cbn [scanLoop].
  - rewrite scanStep_eof.
    destruct state; intros; simplify_eq; cbn in *; auto.
  - destruct (scanStep _ _ _ _ _) as [st' tt' v'| st' tt' v' e u |e] eqn:Hstep.
    + eapply IH. by eapply scanStep_tokenType.
    + pose proof Hstep as (-> & -> & _)%scanStep_BreakScan_inv.
      intros; simplify_eq. cbn.
      destruct state; cbn in Hin; auto.
      by apply scanStep_start_no_break in Hstep.
    + intros; simplify_eq.
Qed.

Lemma Tokenizer_Next_tokenType input token err rest :
  Tokenizer_Next classifier input = Some (Some token, err, rest) →
  tokenType token = WordToken ∨ tokenType token = CommentToken.
Proof. by apply scanLoop_tokenType. Qed.

(** The same for the lexer: the word is among the runes read, in their
    order, and the error says where the lexer stopped. *)
Lemma Lexer_Next_consumed input : ∀ word err rest,
  Lexer_Next classifier input = Some (word, err, rest) →
  ∃ consumed,
    input = consumed ++ rest ∧ word `sublist_of` consumed ∧
    stoppedAt classifier err consumed rest.
Proof.
  induction input as [input IH] using (induction_ltof1 _ length).
  unfold ltof in IH. intros word err rest. rewrite Lexer_Next_unfold.
  destruct (Tokenizer_Next classifier input) as [[[token e] rest']|] eqn:Hscan;
    [|done].
  pose proof Hscan as (consumed & -> & Htok & Hstop)%scanLoop_consumed.
  destruct e as [e|].
  { destruct token; intros; simplify_eq;
      exists consumed; (split; [done|]); (split; [apply sublist_nil_l | done]). }
  destruct token as [token|]; [|done].
  pose proof (Tokenizer_Next_tokenType _ _ _ _ Hscan) as [Hty|Hty]; rewrite Hty.
  - intros; simplify_eq. exists consumed. split; [done|]. split; [|done].
    by destruct (Htok token eq_refl) as (w & -> & ?).
  - apply scanStream_length in Hscan.
    intros (consumed' & -> & Hsub & Hstop')%IH; [|done].
    exists (consumed ++ consumed'). rewrite <-app_assoc. split; [done|].
    split; [by apply sublist_inserts_l|].
    cbn in Hstop.
    destruct err as [[]|]; cbn in *; try done.
    + destruct Hstop'. split; [by apply Forall_app|done].
    + destruct Hstop' as (pre & -> & Hpre & Hr).
      exists (consumed ++ pre). rewrite <-app_assoc.
      split; [done|]. split; [by apply Forall_app|done].
    + destruct Hstop'. split; [by apply Forall_app|done].
    + destruct Hstop'. split; [by apply Forall_app|done].
    + by apply Forall_app.
Qed.

(** And for Split: the words, put end to end, are runes of the input in
    their order, there are no more words than runes, and the error says how
    far the input was read. *)
Lemma Split_consumed input : ∀ words err,
  Split classifier input = Some (words, err) →
  concat words `sublist_of` input ∧ length words ≤ length input ∧
  match err with
  | Some (ErrUnknownRune r) =>
      ∃ pre post, input = pre ++ r :: post ∧
                  Forall (λ r, classified classifier r = true) pre ∧
                  classified classifier r = false
  | Some ErrEOFAfterEscape | Some ErrEOFInQuote | None =>
      Forall (λ r, classified classifier r = true) input
  | Some _ => False
  end.
Proof.
  induction input as [input IH] using (induction_ltof1 _ length).
  unfold ltof in IH. intros words err. rewrite Split_unfold.
  destruct (Lexer_Next classifier input) as [[[word e] rest]|] eqn:Hnext; [|done].
  pose proof Hnext as (consumed & -> & Hsub & Hstop)%Lexer_Next_consumed.
  destruct e as [e|].
  - intros; simplify_eq. split; [apply sublist_nil_l|]. split; [cbn; lia|].
    destruct e; cbn in *; try done.
    + destruct Hstop as [? ->]. by rewrite app_nil_r.
    + destruct Hstop as (pre & -> & ? & ?). exists pre, rest.
      by rewrite <-app_assoc.
    + destruct Hstop as [? ->]. by rewrite app_nil_r.
    + destruct Hstop as [? ->]. by rewrite app_nil_r.
  - apply Lexer_Next_length in Hnext.
    destruct (Split classifier rest) as [[ws e]|] eqn:Hsplit; [|done].
    cbn. intros; simplify_eq.
    destruct (IH rest Hnext _ _ Hsplit) as (Hsub' & Hlen & Herr).
    split; [by apply sublist_app|]. split; [cbn in *; lia|].
    cbn in Hstop.
    destruct err as [[]|]; try done.
    + destruct Herr as (pre & post & -> & Hpre & Hr).
      exists (consumed ++ pre), post. rewrite <-app_assoc.
      split; [done|]. split; [by apply Forall_app|done].
    + by apply Forall_app.
    + by apply Forall_app.
    + by apply Forall_app.
Qed.

End Consumed.

Lemma first_unclassified_unique {A} (P : A → Prop) pre : ∀ r post pre' r' post',
  pre ++ r :: post = pre' ++ r' :: post' →
  Forall P pre → ¬ P r → Forall P pre' → ¬ P r' →
  pre = pre' ∧ r = r' ∧ post = post'.
Proof.
  induction pre as [|x pre IH]; intros r post [|x' pre'] r' post' Heq Hpre Hr Hpre' Hr';
    simplify_eq/=.
  - done.
  - by apply Forall_cons in Hpre' as [? _].
  - by apply Forall_cons in Hpre as [? _].
  - apply Forall_cons in Hpre as [_ Hpre]. apply Forall_cons in Hpre' as [_ Hpre'].
    by destruct (IH _ _ _ _ _ H0 Hpre Hr Hpre' Hr') as (-> & -> & ->).
Qed.

Lemma SplitOf_Split f s : SplitOf f s = Split (classifierOf f) s.
Proof. by destruct f. Qed.

Lemma NextWordOf_Lexer_Next f s : NextWordOf f s = Lexer_Next (classifierOf f) s.
Proof. by destruct f. Qed.

Lemma NextTokenOf_Tokenizer_Next f s : NextTokenOf f s = Tokenizer_Next (classifierOf f) s.
Proof. by destruct f. Qed.

(** ** The reader *)

(** The reader only moves forward: what a call of the tokenizer leaves is a
    suffix of what it found, a call that returns a token has read at least
    one rune for good, and a call that returns no token returns an error. *)
Theorem X_reader_moves_forward (f : sourceFile) input token err rest :
  NextTokenOf f input = Some (token, err, rest) →
  rest `suffix_of` input ∧
  (token ≠ None → length rest < length input) ∧
  (token = None → err ≠ None).
Proof.
  rewrite NextTokenOf_Tokenizer_Next. intros Hscan.
  split; [by eapply scanLoop_suffix|]. split.
  - destruct token as [token|]; [|done]. intros _.
    by eapply scanStream_length.
  - intros ->. apply scanLoop_nil_error in Hscan as [e ->]. done.
Qed.

Lemma X_reader_moves_forward_witness :
  [32%Z; 98%Z] `suffix_of` runes "a b" ∧
  (Some (mkToken WordToken [97%Z]) ≠ None → length [32%Z; 98%Z] < length (runes "a b")) ∧
  (Some (mkToken WordToken [97%Z]) = None → @None error ≠ None).
Proof.
  apply (X_reader_moves_forward part_000 (runes "a b")).
  vm_compute. reflexivity.
Defined.

(** ** Token types and errors *)

(** A token the tokenizer returns is a word or a comment, with or without
    an error beside it; so the lexer's error for a token of another type
    never occurs. *)
Theorem X_token_is_word_or_comment (f : sourceFile) :
  (∀ input token err rest,
     NextTokenOf f input = Some (Some token, err, rest) →
     tokenType token = WordToken ∨ tokenType token = CommentToken) ∧
  (∀ input word t rest,
     NextWordOf f input ≠ Some (word, Some (ErrUnknownTokenType t), rest)).
Proof.
  split.
  - intros input token err rest. rewrite NextTokenOf_Tokenizer_Next.
    apply Tokenizer_Next_tokenType.
  - intros input word t rest. rewrite NextWordOf_Lexer_Next.
    intros (consumed & _ & _ & [])%Lexer_Next_consumed.
    apply ClassifyRune_not_eof.
Qed.

Lemma X_token_is_word_or_comment_witness :
  tokenType (mkToken CommentToken (runes "x")) = WordToken ∨
  tokenType (mkToken CommentToken (runes "x")) = CommentToken.
Proof.
  apply (proj1 (X_token_is_word_or_comment shlex_go) (runes "#x") _ None []).
  vm_compute. reflexivity.
Defined.

(** The errors of Split: never the end of the stream, never an unknown
    token type; an unknown rune, which then occurs in the input and has no
    class, or one of the two errors at the end of the input, and then every
    rune of the input has a class. *)
Theorem X_Split_errors (f : sourceFile) s words err :
  SplitOf f s = Some (words, Some err) →
  (∃ r, err = ErrUnknownRune r ∧ r ∈ s ∧ classified (classifierOf f) r = false) ∨
  (err = ErrEOFAfterEscape ∨ err = ErrEOFInQuote) ∧
  Forall (λ r, classified (classifierOf f) r = true) s.
Proof.
  rewrite SplitOf_Split.
  intros (_ & _ & Herr)%Split_consumed; [|apply ClassifyRune_not_eof].
  destruct err; try done.
  - left. destruct Herr as (pre & post & -> & _ & Hr).
    eexists. split; [done|]. split; [|done].
    apply elem_of_app. right. by left.
  - right. auto.
  - right. auto.
Qed.

Lemma X_Split_errors_witness :
  (∃ r, ErrUnknownRune 61%Z = ErrUnknownRune r ∧ r ∈ runes "a b=c" ∧
        classified Part000.NewDefaultClassifier r = false) ∨
  (ErrUnknownRune 61%Z = ErrEOFAfterEscape ∨ ErrUnknownRune 61%Z = ErrEOFInQuote) ∧
  Forall (λ r, classified Part000.NewDefaultClassifier r = true) (runes "a b=c").
Proof.
  apply (X_Split_errors part_000 (runes "a b=c") [runes "a"]).
  vm_compute. reflexivity.
Defined.

(** Split stops at the first rune without a class, whatever follows it:
    when all the runes before a rune have a class and the rune has none,
    Split returns the unknown-rune error for that rune. *)
Theorem X_Split_first_unknown_rune (f : sourceFile) pre r post :
  Forall (λ r, classified (classifierOf f) r = true) pre →
  classified (classifierOf f) r = false →
  ∃ words, SplitOf f (pre ++ r :: post) = Some (words, Some (ErrUnknownRune r)).
Proof.
  intros Hpre Hr. rewrite SplitOf_Split.
  destruct (Split_total (classifierOf f) (pre ++ r :: post)) as [[words err] Hsplit].
  exists words. rewrite Hsplit.
  apply Split_consumed in Hsplit as (_ & _ & Herr); [|apply ClassifyRune_not_eof].
  assert (Hbad : ¬ Forall (λ r, classified (classifierOf f) r = true) (pre ++ r :: post)).
  { intros [_ [Hr' _]%Forall_cons]%Forall_app. congruence. }
  destruct err as [[]|]; try done.
  destruct Herr as (pre' & post' & Heq & Hpre' & Hr').
  apply (first_unclassified_unique (λ r, classified (classifierOf f) r = true))
    in Heq as (_ & -> & _); [done|done| |done|]; congruence.
Qed.

Lemma X_Split_first_unknown_rune_witness :
  ∃ words, ShlexGo.Split (runes "a b" ++ 61%Z :: runes "c=d") =
           Some (words, Some (ErrUnknownRune 61%Z)).
Proof.
  apply (X_Split_first_unknown_rune shlex_go (runes "a b") 61%Z (runes "c=d")).
  - repeat (apply Forall_cons; split; [vm_compute; reflexivity|]). constructor.
  - vm_compute. reflexivity.
Defined.

(** ** The words and the input *)

(** Split only drops runes: the words it returns, put end to end, are
    runes of the input in the order of the input, and there are at most as
    many words as the input has runes. *)
Theorem X_Split_words_from_input (f : sourceFile) s words err :
  SplitOf f s = Some (words, err) →
  concat words `sublist_of` s ∧ length words ≤ length s.
Proof.
  rewrite SplitOf_Split.
  intros (? & ? & _)%Split_consumed; [done|apply ClassifyRune_not_eof].
Qed.

Lemma X_Split_words_from_input_witness :
  concat [runes "a b"; runes "c"] `sublist_of` runes "'a b' \c" ∧
  length [runes "a b"; runes "c"] ≤ length (runes "'a b' \c").
Proof.
  apply (X_Split_words_from_input part_000 (runes "'a b' \c") _ None).
  vm_compute. reflexivity.
Defined.

(** ** The two files *)

(** What [shlex.go] splits, [part_000] splits the same way: a result of
    the Split of [shlex.go] that is no unknown-rune error is the result of
    the Split of [part_000] on the same input. *)
Theorem X_part_000_extends_shlex_go s words err :
  ShlexGo.Split s = Some (words, err) →
  (∀ r, err ≠ Some (ErrUnknownRune r)) →
  Part000.Split s = Some (words, err).
Proof.
  intros Hsplit Herr. rewrite <-Hsplit.
  rewrite ShlexGo_Split_eq, Part000_Split_eq in *. unfold Split. symmetry.
  apply SplitLoop_agree.
  apply (Split_consumed _ (ClassifyRune_not_eof shlex_go)) in Hsplit as (_ & _ & Hs).
  assert (Hall : Forall (λ r, classified ShlexGo.NewDefaultClassifier r = true) s).
  { destruct err as [[]|]; try done. by destruct (Herr r). }
  eapply Forall_impl; [exact Hall|]. intros r Hr. cbn beta in Hr.
  apply ClassifyRune_files. intros ->. by vm_compute in Hr.
Qed.

Lemma X_part_000_extends_shlex_go_witness :
  Part000.Split (runes "a 'b c") = Some ([runes "a"], Some ErrEOFInQuote).
Proof.
  apply X_part_000_extends_shlex_go.
  - vm_compute. reflexivity.
  - intros r. discriminate.
Defined.

(** ** Equality of tokens *)

(** [Equal] holds exactly for two tokens that are there and are the same:
    it is symmetric and transitive, a nil token equals nothing, itself
    included, and a token that is there equals itself. *)
Theorem X_Equal_partial_equivalence :
  (∀ a b, Equal a b = true ↔ a = b ∧ a ≠ None) ∧
  (∀ a b, Equal a b = Equal b a) ∧
  (∀ a b c, Equal a b = true → Equal b c = true → Equal a c = true) ∧
  (∀ b, Equal None b = false) ∧
  (∀ t, Equal (Some t) (Some t) = true).
Proof.
  assert (Hspec : ∀ a b, Equal a b = true ↔ a = b ∧ a ≠ None).
  { intros [[ta va]|] [[tb vb]|]; cbn; try (split; [done | by intros [? ?]]).
    case_decide as Ht; [|split; [done | intros [? ?]; simplify_eq]].
    rewrite bool_decide_eq_true. split; [by intros; simplify_eq|].
    by intros [? ?]; simplify_eq. }
  split; [done|]. split; [|split; [|split]].
  - intros a b. destruct (Equal a b) eqn:Hab, (Equal b a) eqn:Hba; try done.
    + apply Hspec in Hab as [-> ?]. by rewrite (proj2 (Hspec b b)) in Hba.
    + apply Hspec in Hba as [-> ?]. by rewrite (proj2 (Hspec a a)) in Hab.
  - intros a b c [-> Ha]%Hspec [-> _]%Hspec. by apply Hspec.
  - done.
  - intros t. by apply Hspec.
Qed.

Lemma X_Equal_partial_equivalence_witness :
  Equal (Some (mkToken WordToken (runes "a"))) (Some (mkToken WordToken (runes "a"))) = true.
Proof.
  apply (proj1 X_Equal_partial_equivalence). split; [reflexivity | discriminate].
Defined.

(** ** Building and reading the classifier *)

(** [addRuneClass] gives every rune of the string the class, whatever the
    map held for it, and leaves the class of every other rune as it was. *)
Theorem X_addRuneClass_ClassifyRune (typeMap : tokenClassifier) rs tokenType (r : rune) :
  ClassifyRune (addRuneClass typeMap rs tokenType) r =
  if decide (r ∈ rs) then tokenType else ClassifyRune typeMap r.
Proof.
  unfold ClassifyRune. rewrite lookup_addRuneClass. by case_decide.
Qed.

(** The default classifier of each file is the table of its six sets: a
    rune has the class of the set that holds it, and no class when none
    does; no rune is in two sets; and every rune with a class is an ASCII
    character between the tab and the pipe. *)
Theorem X_default_classifier_table (f : sourceFile) :
  (∀ r, ClassifyRune (classifierOf f) r =
        classOf (charsOf f) [32; 9; 13; 10]%Z [34%Z] [39%Z] [92%Z] [35%Z] r) ∧
  NoDup (charsOf f ++ [32; 9; 13; 10; 34; 39; 92; 35]%Z) ∧
  (∀ r, classified (classifierOf f) r = true → (9 ≤ r ≤ 124)%Z).
Proof.
  assert (Htable : ∀ r, ClassifyRune (classifierOf f) r =
    classOf (charsOf f) [32; 9; 13; 10]%Z [34%Z] [39%Z] [92%Z] [35%Z] r).
  { intros r. destruct f; [apply ClassifyRune_ShlexGo | apply ClassifyRune_Part000]. }
  split; [done|]. split.
  - destruct f; refine (bool_decide_unpack _ _); by vm_compute.
  - intros r. unfold classified. rewrite Htable. unfold classOf.
    assert (Hall : Forall (λ r, (9 ≤ r ≤ 124)%Z)
                     (charsOf f ++ [32; 9; 13; 10; 34; 39; 92; 35]%Z)).
    { destruct f; refine (bool_decide_unpack _ _); by vm_compute. }
    rewrite Forall_forall in Hall.
    repeat case_decide; try done; intros _; apply Hall;
      rewrite elem_of_app; first [by left | right];
      match goal with
      | H : r ∈ _ |- _ =>
          revert H; rewrite !elem_of_cons, !elem_of_nil; clear; tauto
      end.
Qed.

Lemma X_default_classifier_table_witness : (9 ≤ 124 ≤ 124)%Z.
Proof.
  apply (proj2 (proj2 (X_default_classifier_table part_000))).
  vm_compute. reflexivity.
Defined.

(** ** Blanks, comments and plain words *)

Lemma forallb_Forall {A} (p : A → bool) (l : list A) :
  forallb p l = true → Forall (λ x, p x) l.
Proof.
  induction l as [|x l IH]; cbn; [constructor|].
  intros [Hx Hl]%andb_prop. constructor; [by rewrite Hx | auto].
Qed.

Section MoreSpans.

Variable classifier : tokenClassifier.

Lemma Split_spaces sp s :
  Forall (λ r, ClassifyRune classifier r = spaceRuneClass) sp →
  Split classifier (sp ++ s) = Split classifier s.
Proof.
  induction 1 as [|r sp Hr _ IH]; [done|].
  cbn [app]. by rewrite Split_space.
Qed.






(** Fields. *)
Lemma fields_word w : ∀ cur rest,
  Forall (λ r, ClassifyRune classifier r = charRuneClass) w →
  fields classifier cur (w ++ rest) = fields classifier (cur ++ w) rest.
Proof.
  induction w as [|r w IH]; intros cur rest Hw.
  - by rewrite app_nil_r.
  - apply Forall_cons in Hw as [Hr Hw]. cbn [app fields].
    rewrite decide_False by (by rewrite Hr).
    rewrite IH by done. by rewrite <-app_assoc.
Qed.

Lemma fields_boundary r cur rest :
  match rest with
  | [] => True
  | r :: _ => ClassifyRune classifier r = spaceRuneClass
  end →
  fields classifier (r :: cur) rest = (r :: cur) :: fields classifier [] rest.
Proof.
  destruct rest as [|r' rest]; [done|]. intros Hr'. cbn [fields].
  by rewrite !decide_True.
Qed.

Lemma plain_prefix input :
  Forall (λ r, ClassifyRune classifier r = charRuneClass ∨
               ClassifyRune classifier r = spaceRuneClass) input →
  ∃ w rest,
    input = w ++ rest ∧
    Forall (λ r, ClassifyRune classifier r = charRuneClass) w ∧
    match rest with
    | [] => True
    | r :: _ => ClassifyRune classifier r = spaceRuneClass
    end ∧
    Forall (λ r, ClassifyRune classifier r = charRuneClass ∨
                 ClassifyRune classifier r = spaceRuneClass) rest.
Proof.
  induction 1 as [|r input [Hr|Hr] Hall (w & rest & -> & Hw & Hrest & Hall')].
  - exists [], []. by repeat split.
  - exists (r :: w), rest. repeat split; try done. by constructor.
  - exists [], (r :: w ++ rest). repeat split; try done. constructor; auto.
Qed.

Lemma Split_fields input :
  Forall (λ r, ClassifyRune classifier r = charRuneClass ∨
               ClassifyRune classifier r = spaceRuneClass) input →
  Split classifier input = Some (fields classifier [] input, None).
Proof.
  induction input as [input IH] using (induction_ltof1 _ length).
  unfold ltof in IH. intros Hall.
  destruct input as [|r input]; [done|].
  pose proof Hall as [[Hr|Hr] Hall']%Forall_cons.
  - destruct (plain_prefix input Hall') as (w & rest & -> & Hw & Hrest & Hall'').
    change (r :: w ++ rest) with ((r :: w) ++ rest).
    rewrite Split_unfold, Lexer_Next_plainWord; [|cbn [plainWord]|done].
    + rewrite IH; [|cbn; rewrite length_app; lia|done].
      rewrite (fields_word (r :: w)) by (by constructor). cbn [app].
      by rewrite fields_boundary.
    + rewrite bool_decide_eq_true_2 by done. cbn.
      clear -Hw. induction Hw as [|x w Hx _ IHw]; [done|].
      cbn [forallb]. unfold wordRune at 1. by rewrite Hx.
  - rewrite Split_space by done. rewrite IH; [|cbn; lia|done].
    cbn [fields]. by rewrite decide_True.
Qed.

(** ** Words written with escapes and quotes *)

Hypothesis H34 : ClassifyRune classifier 34%Z = escapingQuoteRuneClass.
Hypothesis H39 : ClassifyRune classifier 39%Z = nonEscapingQuoteRuneClass.
Hypothesis H92 : ClassifyRune classifier 92%Z = escapeRuneClass.

Lemma scanLoop_segment s : ∀ ty val rest,
  segmentOk classifier false s = true →
  scanLoop classifier inWordState ty val (renderSegment s ++ rest) =
  scanLoop classifier inWordState ty (val ++ segmentText s) rest.
Proof.
  intros ty val rest Hs.
  destruct s as [r|r|inner|items]; cbn [renderSegment segmentText segmentOk] in *.
  - cbn [app scanLoop]. unfold wordRune in Hs.
    by destruct (ClassifyRune classifier r).
  - cbn [app scanLoop]. rewrite H92. cbn [scanStep]. unfold escapable in Hs.
    by destruct (ClassifyRune classifier r).
  - cbn [app scanLoop]. rewrite H39. cbn [scanStep].
    rewrite <-app_assoc, scanLoop_quoting by by apply forallb_Forall.
    cbn [app scanLoop]. by rewrite H39.
  - cbn [app scanLoop]. rewrite H34. cbn [scanStep].
    rewrite <-app_assoc, scanLoop_quotingEscaping by (done || by apply forallb_Forall).
    cbn [app scanLoop]. by rewrite H34.
Qed.

Lemma scanLoop_segments segments : ∀ ty val rest,
  forallb (segmentOk classifier false) segments = true →
  scanLoop classifier inWordState ty val (renderWord segments ++ rest) =
  scanLoop classifier inWordState ty (val ++ wordText segments) rest.
Proof.
  induction segments as [|s segments IH]; intros ty val rest Hall.
  - by rewrite app_nil_r.
  - cbn [forallb] in Hall. apply andb_prop in Hall as [Hs Hall].
    change (renderWord (s :: segments)) with (renderSegment s ++ renderWord segments).
    change (wordText (s :: segments)) with (segmentText s ++ wordText segments).
    rewrite <-app_assoc, scanLoop_segment by done.
    rewrite IH by done. by rewrite <-app_assoc.
Qed.

Lemma scanLoop_first_segment s ty rest :
  segmentOk classifier true s = true →
  scanLoop classifier startState ty [] (renderSegment s ++ rest) =
  scanLoop classifier inWordState WordToken (segmentText s) rest.
Proof.
  intros Hs.
  destruct s as [r|r|inner|items]; cbn [renderSegment segmentText segmentOk] in *.
  - apply bool_decide_eq_true_1 in Hs. cbn [app scanLoop]. by rewrite Hs.
  - cbn [app scanLoop]. rewrite H92. cbn [scanStep]. unfold escapable in Hs.
    by destruct (ClassifyRune classifier r).
  - cbn [app scanLoop]. rewrite H39. cbn [scanStep].
    rewrite <-app_assoc, scanLoop_quoting by by apply forallb_Forall.
    cbn [app scanLoop]. by rewrite H39.
  - cbn [app scanLoop]. rewrite H34. cbn [scanStep].
    rewrite <-app_assoc, scanLoop_quotingEscaping by (done || by apply forallb_Forall).
    cbn [app scanLoop]. by rewrite H34.
Qed.

Lemma scanStream_word segments rest :
  wordOk classifier segments = true →
  match rest with
  | [] => True
  | r :: _ => ClassifyRune classifier r = spaceRuneClass
  end →
  scanStream classifier (renderWord segments ++ rest) =
  Some (Some (mkToken WordToken (wordText segments)), None, rest).
Proof.
  destruct segments as [|s segments]; [done|]. cbn [wordOk].
  intros [Hs Hall]%andb_prop Hrest. unfold scanStream.
  change (renderWord (s :: segments)) with (renderSegment s ++ renderWord segments).
  change (wordText (s :: segments)) with (segmentText s ++ wordText segments).
  rewrite <-app_assoc, scanLoop_first_segment by done.
  rewrite scanLoop_segments by done.
  destruct rest as [|r rest]; [done|]. by rewrite scanLoop_inWord_space.
Qed.

Lemma Split_words words :
  ClassifyRune classifier 32%Z = spaceRuneClass →
  Forall (λ segments, wordOk classifier segments = true) words →
  Split classifier (join (renderWord <$> words)) = Some (wordText <$> words, None).
Proof.
  intros Hsp. induction words as [|w words IH]; intros Hall; [done|].
  apply Forall_cons in Hall as [Hw Hall].
  destruct words as [|w' words].
  - change (join (renderWord <$> [w])) with (renderWord w).
    rewrite <-(app_nil_r (renderWord w)).
    rewrite Split_unfold, Lexer_Next_unfold. unfold Tokenizer_Next.
    by rewrite scanStream_word.
  - change (join (renderWord <$> w :: w' :: words))
      with (renderWord w ++ 32%Z :: join (renderWord <$> w' :: words)).
    rewrite Split_unfold, Lexer_Next_unfold. unfold Tokenizer_Next.
    rewrite scanStream_word by done. cbn [tokenType value].
    rewrite Split_space by done. by rewrite IH.
Qed.

End MoreSpans.

(** ** The token stream *)

Section TokenStream.

Variable classifier : tokenClassifier.

Lemma tokensLoop_fuel fuel : ∀ fuel' input,
  length input < fuel → length input < fuel' →
  tokensLoop classifier fuel input = tokensLoop classifier fuel' input.
Proof.
  induction fuel as [|fuel IH]; intros fuel' input Hf Hf'; [lia|].
  destruct fuel' as [|fuel']; [lia|]. cbn [tokensLoop].
  destruct (Tokenizer_Next classifier input) as [[[[token|] [err|]] rest]|] eqn:Hscan;
    try reflexivity.
  apply scanStream_length in Hscan. f_equal. apply IH; lia.
Qed.

Lemma tokens_unfold input :
  tokens classifier input =
  match Tokenizer_Next classifier input with
  | None => None
  | Some (_, Some err, _) => Some ([], err)
  | Some (None, None, _) => None
  | Some (Some token, None, rest) =>
      (λ r, (token :: r.1, r.2)) <$> tokens classifier rest
  end.
Proof.
  unfold tokens at 1. cbn [tokensLoop].
  destruct (Tokenizer_Next classifier input) as [[[[token|] [err|]] rest]|] eqn:Hscan;
    try reflexivity.
  apply scanStream_length in Hscan. f_equal. apply tokensLoop_fuel; lia.
Qed.

Lemma Split_tokens input :
  Split classifier input =
  (λ r : list Token * error,
     (value <$> filter (λ t, tokenType t = WordToken) r.1,
      if decide (r.2 = EOF) then None else Some r.2)) <$>
  tokens classifier input.
Proof.
  induction input as [input IH] using (induction_ltof1 _ length).
  unfold ltof in IH.
  rewrite Split_unfold, Lexer_Next_unfold, tokens_unfold.
  destruct (Tokenizer_Next classifier input) as [[[[token|] [err|]] rest]|] eqn:Hscan;
    try reflexivity.
  pose proof (Tokenizer_Next_tokenType _ _ _ _ _ Hscan) as Hty.
  apply scanStream_length in Hscan.
  destruct Hty as [Hty|Hty]; rewrite Hty.
  - rewrite (IH rest Hscan).
    destruct (tokens classifier rest) as [[toks e]|]; [|done].
    cbn [fmap option_fmap option_map fst snd].
    by rewrite filter_cons_True.
  - rewrite <-Split_unfold, (IH rest Hscan).
    destruct (tokens classifier rest) as [[toks e]|]; [|done].
    cbn [fmap option_fmap option_map fst snd].
    rewrite filter_cons_False; [done|]. by rewrite Hty.
Qed.

End TokenStream.

Lemma blank_spaceRuneClass f (r : rune) :
  r ∈ [32; 9; 13; 10]%Z → ClassifyRune (classifierOf f) r = spaceRuneClass.
Proof.
  destruct (ClassifyRune_marked f) as (H32 & H9 & H13 & H10 & _).
  rewrite !elem_of_cons, elem_of_nil. by intros [->|[->|[->|[->|[]]]]].
Qed.


(** ** Blanks and comments in front of the words *)

(** Spaces, tabs, carriage returns and newlines in front of the input do
    not change the result of Split, and an input made of them alone gives
    no word and no error. *)
Theorem X_Split_leading_blanks (f : sourceFile) (sp s : list rune) :
  Forall (λ r, r ∈ [32; 9; 13; 10]%Z) sp →
  SplitOf f (sp ++ s) = SplitOf f s ∧ SplitOf f sp = Some ([], None).
Proof.
  intros Hsp. rewrite !SplitOf_Split.
  assert (Hcls : Forall (λ r, ClassifyRune (classifierOf f) r = spaceRuneClass) sp).
  { eapply Forall_impl; [exact Hsp|]. apply blank_spaceRuneClass. }
  split; [by apply Split_spaces|].
  rewrite <-(app_nil_r sp). by rewrite Split_spaces.
Qed.

Lemma X_Split_leading_blanks_witness :
  Part000.Split ([32; 9; 10; 13]%Z ++ runes "a b") = Part000.Split (runes "a b") ∧
  Part000.Split [32; 9; 10; 13]%Z = Some ([], None).
Proof.
  apply (X_Split_leading_blanks part_000).
  refine (bool_decide_unpack _ _). vm_compute. exact I.
Defined.



(** ** Input without quotes, escapes and comments *)

(** On an input made of runes of class char and space only, Split is the
    splitting into fields at the runes of class space: no error, no empty
    word, every maximal run of char runes a word. *)
Theorem X_Split_plain_is_fields (f : sourceFile) (s : list rune) :
  Forall (λ r, ClassifyRune (classifierOf f) r = charRuneClass ∨
               ClassifyRune (classifierOf f) r = spaceRuneClass) s →
  SplitOf f s = Some (fields (classifierOf f) [] s, None).
Proof. rewrite SplitOf_Split. apply Split_fields. Qed.

Lemma X_Split_plain_is_fields_witness :
  ShlexGo.Split (runes " ab  c-d ") =
  Some (fields ShlexGo.NewDefaultClassifier [] (runes " ab  c-d "), None).
Proof.
  apply (X_Split_plain_is_fields shlex_go).
  repeat (apply Forall_cons; split;
          [first [left; vm_compute; reflexivity | right; vm_compute; reflexivity]|]).
  constructor.
Defined.

(** ** Words as they are written *)





Lemma renderWord_SQuoted (words : list (list rune)) :
  renderWord <$> ((λ w, [SQuoted w]) <$> words) = squote <$> words.
Proof.
  induction words as [|w words IH]; [done|].
  cbn [fmap list_fmap] in *. rewrite IH. f_equal. apply app_nil_r.
Qed.

Lemma wordText_SQuoted (words : list (list rune)) :
  wordText <$> ((λ w, [SQuoted w]) <$> words) = words.
Proof.
  induction words as [|w words IH]; [done|].
  cbn [fmap list_fmap] in *. rewrite IH. f_equal. apply app_nil_r.
Qed.

(** Quoting and splitting: words made of classified runes other than the
    single quote, each put in single quotes and joined by single spaces,
    split into the words themselves; empty words and words with blanks,
    backslashes, double quotes or comment markers come back unchanged. *)
Theorem X_Split_squote_round_trip (f : sourceFile) (words : list (list rune)) :
  Forall (λ w, forallb (literal (classifierOf f)) w = true) words →
  SplitOf f (join (squote <$> words)) = Some (words, None).
Proof.
  intros Hall. rewrite SplitOf_Split.
  destruct (ClassifyRune_marked f) as (H32 & _ & _ & _ & H34 & H39 & H92 & _).
  rewrite <-renderWord_SQuoted.
  rewrite (Split_words _ H34 H39 H92 ((λ w, [SQuoted w]) <$> words) H32).
  - by rewrite wordText_SQuoted.
  - apply Forall_fmap. eapply Forall_impl; [exact Hall|].
    intros w Hw. cbn. by rewrite Hw.
Qed.

Lemma X_Split_squote_round_trip_witness :
  Part000.Split (join (squote <$> [runes "a b"; []; 34%Z :: runes "\#"])) =
  Some ([runes "a b"; []; 34%Z :: runes "\#"], None).
Proof.
  apply (X_Split_squote_round_trip part_000).
  repeat (apply Forall_cons; split; [vm_compute; reflexivity|]). constructor.
Defined.

(** ** Split, the lexer and the tokenizer *)

(** Split returns the texts of the word tokens of the token stream, in
    their order, the comments left out, with the error that ended the
    stream unless it is its end. *)
Theorem X_Split_is_words_of_tokens (f : sourceFile) (s : list rune) :
  SplitOf f s =
  (λ r : list Token * error,
     (value <$> filter (λ t, tokenType t = WordToken) r.1,
      if decide (r.2 = EOF) then None else Some r.2)) <$>
  tokens (classifierOf f) s.
Proof. rewrite SplitOf_Split. apply Split_tokens. Qed.

(** Split returns on every input: every turn of its loop and of the
    lexer's reads at least one rune for good, so both loops end, and as many
    turns as the input has runes, and one more, are always enough. *)
Theorem X_Split_terminates (f : sourceFile) (s : list rune) :
  ∃ words err,
    SplitOf f s = Some (words, err) ∧
    ∀ fuel, length s < fuel →
      SplitLoop (classifierOf f) fuel [] s = Some (words, err).
Proof.
  destruct (Split_total (classifierOf f) s) as [[words err] Hsplit].
  exists words, err. rewrite SplitOf_Split. split; [done|].
  intros fuel Hfuel. rewrite <-Hsplit. unfold Split.
  apply SplitLoop_fuel; lia.
Qed.

Lemma X_Split_terminates_witness :
  ∃ words err,
    Part000.Split (runes "a 'b") = Some (words, err) ∧
    SplitLoop Part000.NewDefaultClassifier 7 [] (runes "a 'b") = Some (words, err).
Proof.
  destruct (X_Split_terminates part_000 (runes "a 'b")) as (words & err & Hsplit & Hfuel).
  exists words, err. split; [exact Hsplit|]. apply Hfuel. vm_compute. lia.
Defined.

(** ** Complete words, and what follows them *)

Section Composition.

Variable classifier : tokenClassifier.
Hypothesis H32 : ClassifyRune classifier 32%Z = spaceRuneClass.
Hypothesis H34 : ClassifyRune classifier 34%Z = escapingQuoteRuneClass.
Hypothesis H39 : ClassifyRune classifier 39%Z = nonEscapingQuoteRuneClass.
Hypothesis H92 : ClassifyRune classifier 92%Z = escapeRuneClass.






End Composition.




